(** * monitor.js: presence tracking of hosts on a network segment

    A shallow embedding of [src/monitor.js] and the properties of its
    scan-normalise-diff-report cycle.

    - [JS]: the fragment of JavaScript values the XML parser hands to the
      program (strings, arrays, objects, [undefined], [null]), property
      access, truthiness, string conversion, and the insertion-ordered
      [Set] of strings.
    - [Eff]: a state-and-exception monad: the state is the module-level
      variable [previousHosts] plus the trace of console lines and child
      processes; exceptions are JavaScript errors.
    - [Monitor]: [getActiveHosts], [checkForChanges] and the timing of
      [main], translated statement by statement.
    - then the theorems. *)

From stdpp Require Import base list strings.
From Stdlib Require Import Ascii ZArith Lia DecimalString.

Local Open Scope string_scope.
Local Open Scope list_scope.

(* ================================================================== *)
(** ** JavaScript values                                               *)
(* ================================================================== *)

Module JS.

(** What [xml2js] produces: element and attribute text as strings, child
    lists as arrays, elements and attribute maps as objects; the root is
    [null] for an empty document, and a missing property reads as
    [undefined]. An object is kept as its list of own properties, read
    by the first entry of a key. *)
#[warnings="-register-all"]
Inductive value : Type :=
| VUndefined
| VNull
| VStr (s : string)
| VArr (elems : list value)
| VObj (props : list (string * value)).

(** A thrown JavaScript error: [err.message] and [err.stack]. *)
Record error : Type := Error { message : string; stack : string }.

(** A computation that may throw. *)
Inductive exc (A : Type) : Type :=
| Ok (a : A)
| Throw (e : error).
Arguments Ok {A} a.
Arguments Throw {A} e.

#[global] Instance exc_ret : MRet exc := fun A a => Ok a.
#[global] Instance exc_bind : MBind exc := fun A B f m =>
  match m with Ok a => f a | Throw e => Throw e end.

(** The [TypeError] raised on reading property [prop] of [undefined] or
    [null] ([base] names which). Of [err.stack] only the first line is
    kept; the lines that name the call frames are left out. *)
Definition type_error (base prop : string) : error :=
  let msg := "Cannot read properties of " +:+ base +:+ " (reading '" +:+ prop +:+ "')" in
  {| message := msg; stack := "TypeError: " +:+ msg |}.

Definition nullish_name (v : value) : string :=
  match v with VNull => "null" | _ => "undefined" end.

(** Truthiness: [undefined], [null] and the empty string are falsy;
    every array and object is truthy. *)
Definition truthy (v : value) : bool :=
  match v with
  | VUndefined | VNull => false
  | VStr EmptyString => false
  | VStr _ | VArr _ | VObj _ => true
  end.

Fixpoint lookup_prop (k : string) (props : list (string * value)) : value :=
  match props with
  | [] => VUndefined
  | (k', v) :: rest => if String.eqb k k' then v else lookup_prop k rest
  end.

(** [v.name] for the property names the program reads ([nmaprun],
    [host], [status], [address], [$], [state], [addrtype], [addr],
    [vendor]): none of them is defined on strings or arrays. *)
Definition get (v : value) (name : string) : exc value :=
  match v with
  | VUndefined | VNull => Throw (type_error (nullish_name v) name)
  | VStr _ | VArr _ => Ok VUndefined
  | VObj props => Ok (lookup_prop name props)
  end.

(** [v[0]]: the first element of an array, the first character of a
    string, the property ["0"] of an object. *)
Definition get0 (v : value) : exc value :=
  match v with
  | VUndefined | VNull => Throw (type_error (nullish_name v) "0")
  | VStr EmptyString => Ok VUndefined
  | VStr (String c _) => Ok (VStr (String c EmptyString))
  | VArr [] => Ok VUndefined
  | VArr (x :: _) => Ok x
  | VObj props => Ok (lookup_prop "0" props)
  end.

(** [v === s] for a string literal [s]. *)
Definition strict_eq_str (v : value) (s : string) : bool :=
  match v with
  | VStr s' => String.eqb s' s
  | _ => false
  end.

Definition isArray (v : value) : bool :=
  match v with VArr _ => true | _ => false end.

(** [a || b] on values. *)
Definition or_else (a b : value) : value := if truthy a then a else b.

(** String conversion, as a template literal performs it: an array is
    joined with commas, its [undefined] and [null] elements printing as
    nothing, and an object prints as [[object Object]]. The values the
    program interpolates are attribute values, which the parser always
    delivers as strings; the other cases are kept for completeness. *)
Fixpoint toString (v : value) : string :=
  match v with
  | VUndefined => "undefined"
  | VNull => "null"
  | VStr s => s
  | VArr elems =>
      (fix join (l : list value) : string :=
         match l with
         | [] => EmptyString
         | x :: rest =>
             let sx := match x with
                       | VUndefined | VNull => EmptyString
                       | _ => toString x
                       end in
             match rest with
             | [] => sx
             | _ => sx +:+ "," +:+ join rest
             end
         end) elems
  | VObj _ => "[object Object]"
  end.

(** [Array.prototype.find] with a predicate that may throw: the first
    element on which the predicate is truthy, else [undefined]. *)
Fixpoint find (p : value → exc bool) (l : list value) : exc value :=
  match l with
  | [] => Ok VUndefined
  | x :: rest =>
      b ← p x;
      if (b : bool) then Ok x else find p rest
  end.

(** [Array.isArray(v) ? v : [v]]. *)
Definition as_array (v : value) : list value :=
  match v with VArr elems => elems | _ => [v] end.

(** [Array.prototype.filter] with a predicate that may throw. *)
Fixpoint filter (p : value → exc bool) (l : list value) : exc (list value) :=
  match l with
  | [] => Ok []
  | x :: rest =>
      b ← p x;
      kept ← filter p rest;
      Ok (if (b : bool) then x :: kept else kept)
  end.

(** [Array.prototype.forEach] whose callback updates an accumulator [S]
    (the set the callback closes over) and may throw. *)
Fixpoint forEach {S : Type} (body : S → value → exc S) (l : list value) (s : S) : exc S :=
  match l with
  | [] => Ok s
  | x :: rest => s' ← body s x; forEach body rest s'
  end.

(** *** [Set] of strings

    A JavaScript [Set] iterates in insertion order and holds no value
    twice: a list of distinct strings, oldest first. *)
Abbreviation StrSet := (list string).

Definition set_empty : StrSet := [].

Definition set_has (s : StrSet) (x : string) : bool :=
  existsb (String.eqb x) s.

Definition set_add (s : StrSet) (x : string) : StrSet :=
  if set_has s x then s else s ++ [x].

Definition set_size (s : StrSet) : nat := length s.

(** A [for (const x of xs) if (keep x) out.push(x)] loop, started on
    an empty [out]. *)
Definition push_each (keep : string → bool) (xs : list string) : list string :=
  fold_left (fun out x => if keep x then out ++ [x] else out) xs [].

(** [Array.prototype.join] on an array of strings. *)
Fixpoint join (sep : string) (l : list string) : string :=
  match l with
  | [] => EmptyString
  | [x] => x
  | x :: rest => x +:+ sep +:+ join sep rest
  end.

(** Decimal rendering of an array length or set size. *)
Definition show_nat (n : nat) : string :=
  NilEmpty.string_of_uint (Nat.to_uint n).

End JS.

(* ================================================================== *)
(** ** Effects: module state, console, child processes, exceptions     *)
(* ================================================================== *)

Module Eff.
Import JS.

(** What a cycle does to the outside, in order. *)
Inductive event : Type :=
| ConsoleLog (line : string)
| ConsoleError (line : string)
| Exec (command : string).

(** The module-level [let previousHosts] and everything emitted so
    far. *)
Record world : Type := World {
  previousHosts : StrSet;
  trace : list event
}.

#[global] Instance event_eq_dec : EqDecision event.
Proof. solve_decision. Defined.

Definition eff (A : Type) : Type := world → exc A * world.

#[global] Instance eff_ret : MRet eff := fun A a w => (Ok a, w).
#[global] Instance eff_bind : MBind eff := fun A B f m w =>
  match m w with
  | (Ok a, w') => f a w'
  | (Throw e, w') => (Throw e, w')
  end.

Definition emit (ev : event) : eff unit :=
  fun w => (Ok tt, {| previousHosts := previousHosts w; trace := trace w ++ [ev] |}).

Definition console_log (line : string) : eff unit := emit (ConsoleLog line).
Definition console_error (line : string) : eff unit := emit (ConsoleError line).

(** [await execPromise(command)]: the child process is started; the
    promise rejects when the process cannot run or exits non-zero. *)
Definition execPromise (command : string) (failure : option error) : eff unit :=
  fun w =>
    let w' := {| previousHosts := previousHosts w; trace := trace w ++ [Exec command] |} in
    match failure with
    | None => (Ok tt, w')
    | Some e => (Throw e, w')
    end.

(** A step that touches neither state nor trace but may throw. *)
Definition lift {A : Type} (r : exc A) : eff A := fun w => (r, w).

Definition read_previousHosts : eff StrSet :=
  fun w => (Ok (previousHosts w), w).

Definition write_previousHosts (s : StrSet) : eff unit :=
  fun w => (Ok tt, {| previousHosts := s; trace := trace w |}).

(** [try { body } catch (err) { handler err }]. *)
Definition try_catch {A : Type} (body : eff A) (handler : error → eff A) : eff A :=
  fun w =>
    match body w with
    | (Ok a, w') => (Ok a, w')
    | (Throw e, w') => handler e w'
    end.

(** [xs.forEach(x => console.log(prefix + x))]. *)
Fixpoint log_each (prefix : string) (xs : list string) : eff unit :=
  match xs with
  | [] => mret tt
  | x :: rest => console_log (prefix +:+ x);; log_each prefix rest
  end.

End Eff.

(* ================================================================== *)
(** ** The program                                                     *)
(* ================================================================== *)

Module Monitor.
Import JS Eff.

(** *** Configuration *)

Definition SCAN_TARGET : string := "10.15.71.1/24".
Definition XML_FILE : string := "/tmp/nmap_scan.xml".
Definition SCAN_INTERVAL_MS : Z := 5 * 60 * 1000.

Definition dquote : string := String "034"%char EmptyString.
Definition newline : string := String "010"%char EmptyString.

(** *** The collaborators during one cycle

    [nmap]: how the scanner process ends ([None]: exit 0).
    [xml_file]: what reading [XML_FILE] gives.
    [parseStringPromise]: the XML parser, a function of the text read.
    [notify_send]: how a notifier process ends, by its command line. *)
Record env : Type := Env {
  nmap : option error;
  xml_file : exc string;
  parseStringPromise : string → exc value;
  notify_send : string → option error
}.

(** *** getActiveHosts, step 4: extracting the active hosts *)

(** [v && rest] where only the truthiness of the whole chain is used
    ([filter] and [find] coerce the callback's result to a boolean). *)
Definition and_also (v : value) (rest : exc bool) : exc bool :=
  if truthy v then rest else Ok false.

(** [host && host.status && host.status[0] && host.status[0].$ &&
    host.status[0].$.state === 'up'] *)
Definition host_is_up (host : value) : exc bool :=
  and_also host (
    status ← get host "status";
    and_also status (
      status0 ← get0 status;
      and_also status0 (
        attrs ← get status0 "$";
        and_also attrs (
          state ← get attrs "state";
          Ok (strict_eq_str state "up"))))).

(** [addr && addr.$ && addr.$.addrtype === addrtype] *)
Definition addr_has_type (addrtype : string) (addr : value) : exc bool :=
  and_also addr (
    attrs ← get addr "$";
    and_also attrs (
      ty ← get attrs "addrtype";
      Ok (strict_eq_str ty addrtype))).

(** The two shapes of a host identifier. *)
Definition identifier_with_mac (ip mac vendor : string) : string :=
  ip +:+ " (" +:+ mac +:+ " - " +:+ vendor +:+ ")".

Definition identifier_no_mac (ip : string) : string :=
  ip +:+ " (No MAC)".

(** The body of the [forEach] callback; [activeHosts] is the set it
    adds to. A [return] leaves the set as it is. *)
Definition add_host (activeHosts : StrSet) (host : value) : exc StrSet :=
  hostAddress ← get host "address";
  let addresses := as_array hostAddress in
  ipObj ← find (addr_has_type "ipv4") addresses;
  if negb (truthy ipObj) then Ok activeHosts
  else
    ipAttrs ← get ipObj "$";
    ip ← get ipAttrs "addr";
    macObj ← find (addr_has_type "mac") addresses;
    hostIdentifier ←
      (if truthy macObj then
         macAttrs ← get macObj "$";
         macAddr ← get macAttrs "addr";
         macAttrs' ← get macObj "$";
         vendor ← get macAttrs' "vendor";
         Ok (identifier_with_mac (toString ip) (toString macAddr)
               (toString (or_else vendor (VStr "Unknown"))))
       else Ok (identifier_no_mac (toString ip)));
    Ok (set_add activeHosts hostIdentifier).

Definition extract_hosts (result : value) : exc StrSet :=
  let activeHosts := set_empty in
  nmaprun ← get result "nmaprun";
  if truthy nmaprun then
    hostField ← get nmaprun "host";
    if truthy hostField then
      let hosts := as_array hostField in
      up ← JS.filter host_is_up hosts;
      forEach add_host up activeHosts
    else Ok activeHosts
  else Ok activeHosts.

(** *** getActiveHosts *)

Definition nmap_command : string :=
  "run0 nix run nixpkgs#nmap -- -sn -n -oX " +:+ XML_FILE +:+ " " +:+ SCAN_TARGET.

Definition getActiveHosts (e : env) : eff StrSet :=
  try_catch
    (console_log ("Scanning " +:+ SCAN_TARGET +:+ "...");;
     execPromise nmap_command (nmap e);;
     xmlData ← lift (xml_file e);
     result ← lift (parseStringPromise e xmlData);
     lift (extract_hosts result))
    (fun err =>
       console_error ("[Error] Scan failed: " +:+ stack err);;
       mret set_empty).

(** *** checkForChanges *)

(** Lines 87 to 105: the first-scan flag and the two lists. *)
Record changes : Type := Changes {
  isFirstScan : bool;
  newDevices : list string;
  leftDevices : list string
}.

Definition diff_hosts (previous currentHosts : StrSet) : changes :=
  {| isFirstScan := Nat.eqb (set_size previous) 0;
     newDevices := push_each (fun host => negb (set_has previous host)) currentHosts;
     leftDevices := push_each (fun host => negb (set_has currentHosts host)) previous |}.

Definition compute_changes (currentHosts : StrSet) : eff changes :=
  previous ← read_previousHosts;
  mret (diff_hosts previous currentHosts).

Definition hasChanges (c : changes) : bool :=
  (0 <? length (newDevices c))%nat || (0 <? length (leftDevices c))%nat.

Definition notify_command (title body : string) : string :=
  "notify-send -t 5000 " +:+ dquote +:+ title +:+ dquote +:+ " " +:+ dquote +:+ body +:+ dquote.

Definition new_devices_title : string := "Network: New Devices".
Definition new_devices_body (newDevices : list string) : string :=
  "Found " +:+ show_nat (length newDevices) +:+ " new device(s):" +:+ newline
    +:+ join newline newDevices.

Definition devices_left_title : string := "Network: Devices Left".
Definition devices_left_body (leftDevices : list string) : string :=
  show_nat (length leftDevices) +:+ " device(s) left:" +:+ newline
    +:+ join newline leftDevices.

Definition new_devices_command (c : changes) : string :=
  notify_command new_devices_title (new_devices_body (newDevices c)).

Definition devices_left_command (c : changes) : string :=
  notify_command devices_left_title (devices_left_body (leftDevices c)).

(** Lines 109 to 115. *)
Definition log_changes (c : changes) (currentHosts : StrSet) : eff unit :=
  if hasChanges c then
    log_each "[+] NEW DEVICE: " (newDevices c);;
    log_each "[-] DEVICE LEFT: " (leftDevices c)
  else
    console_log ("No changes. " +:+ show_nat (set_size currentHosts) +:+ " hosts active.").

(** Lines 119 to 139: one [try] around both notifications. *)
Definition send_notifications (e : env) (c : changes) : eff unit :=
  if hasChanges c && negb (isFirstScan c) then
    try_catch
      ((if (0 <? length (newDevices c))%nat
        then execPromise (new_devices_command c) (notify_send e (new_devices_command c))
        else mret tt);;
       (if (0 <? length (leftDevices c))%nat
        then execPromise (devices_left_command c) (notify_send e (devices_left_command c))
        else mret tt))
      (fun err =>
         console_error ("[Error] Failed to send notification: " +:+ message err))
  else mret tt.

Definition checkForChanges (e : env) : eff unit :=
  currentHosts ← getActiveHosts e;
  c ← compute_changes currentHosts;
  log_changes c currentHosts;;
  send_notifications e c;;
  write_previousHosts currentHosts.

(** Cycles run one after the other, each against its own
    collaborators; the first error that escapes a cycle ends the run. *)
Fixpoint run_cycles (es : list env) : eff unit :=
  match es with
  | [] => mret tt
  | e :: rest => checkForChanges e;; run_cycles rest
  end.

(** The state the module starts in: [previousHosts = new Set()]. *)
Definition initial_world : world := {| previousHosts := set_empty; trace := [] |}.

(** *** main: when the cycles start

    [main] awaits the first call of [checkForChanges] and only then
    arms [setInterval(checkForChanges, SCAN_INTERVAL_MS)]. From then on
    the timer calls [checkForChanges] at every multiple of the interval;
    the call returns a promise nobody awaits, so the timer neither
    waits for a cycle nor skips a tick.

    Times are in milliseconds since [main] was entered. [durations]
    gives, cycle by cycle, how long the cycle's awaited processes keep
    it pending. *)
Record span : Type := Span { started : Z; finished : Z }.

Fixpoint timer_cycles (interval fire : Z) (durations : list Z) : list span :=
  match durations with
  | [] => []
  | d :: rest =>
      {| started := fire; finished := fire + d |}
        :: timer_cycles interval (fire + interval) rest
  end.

Definition main_cycles (interval : Z) (durations : list Z) : list span :=
  match durations with
  | [] => []
  | d0 :: rest =>
      {| started := 0; finished := d0 |}
        :: timer_cycles interval (d0 + interval) rest
  end.

(** *** main: what it does before it returns

    Lines 148 to 155, against the collaborators of the first cycle. The
    result is the period of the timer [setInterval] leaves armed. *)
Definition main (e : env) : eff Z :=
  console_log "Starting network monitor. Running initial scan...";;
  checkForChanges e;;
  let armed := SCAN_INTERVAL_MS in
  console_log "Scan complete. Next scan in 5 minutes.";;
  mret armed.

End Monitor.

(* ================================================================== *)
(** ** Vocabulary of the properties                                    *)
(* ================================================================== *)

Module Props.
Import JS Eff Monitor.

(** *** Outcomes of the scan *)

(** The four ways the [try] block of [getActiveHosts] is left by an
    exception: the scanner process fails, the report file cannot be
    read, the parser rejects it, or the parsed value has no root. *)
Inductive scan_fails (e : env) (err : error) : Prop :=
| fail_process :
    nmap e = Some err → scan_fails e err
| fail_read :
    nmap e = None → xml_file e = Throw err → scan_fails e err
| fail_parse (xml : string) :
    nmap e = None → xml_file e = Ok xml →
    parseStringPromise e xml = Throw err → scan_fails e err
| fail_extract (xml : string) (result : value) :
    nmap e = None → xml_file e = Ok xml →
    parseStringPromise e xml = Ok result →
    extract_hosts result = Throw err → scan_fails e err.

Inductive scan_finds (e : env) (found : StrSet) : Prop :=
| scan_ok (xml : string) (result : value) :
    nmap e = None → xml_file e = Ok xml →
    parseStringPromise e xml = Ok result →
    extract_hosts result = Ok found → scan_finds e found.

(** The set [getActiveHosts] returns once the parser has produced
    [result]: what step 4 extracts, or the empty set of the [catch]. *)
Definition normalize (result : value) : StrSet :=
  match extract_hosts result with
  | Ok s => s
  | Throw _ => set_empty
  end.

(** *** Reading a raw report *)

(** The host entries of a report: [result.nmaprun.host], as a list. *)
Definition report_hosts (result : value) : list value :=
  match result with
  | VObj props =>
      match lookup_prop "nmaprun" props with
      | VObj nprops =>
          let hostField := lookup_prop "host" nprops in
          if truthy hostField then as_array hostField else []
      | _ => []
      end
  | _ => []
  end.

(** [host.status[0].$.state] is the string [up]. *)
Definition status_up (host : value) : Prop :=
  ∃ status status0 attrs,
    get host "status" = Ok status ∧ get0 status = Ok status0 ∧
    get status0 "$" = Ok attrs ∧ get attrs "state" = Ok (VStr "up").

(** [addr.$.addrtype] is the string [addrtype]. *)
Definition has_addrtype (addrtype : string) (addr : value) : Prop :=
  ∃ attrs, get addr "$" = Ok attrs ∧ get attrs "addrtype" = Ok (VStr addrtype).

(** The address entries of a host: [host.address], as a list. *)
Definition host_addresses (host : value) : list value :=
  match host with
  | VObj props => as_array (lookup_prop "address" props)
  | _ => [VUndefined]
  end.

(** [x] is the first element of [l] that satisfies [P]. *)
Definition first_with (P : value → Prop) (l : list value) (x : value) : Prop :=
  ∃ before after, l = before ++ x :: after ∧ P x ∧ Forall (fun y => ¬ P y) before.

Definition none_with (P : value → Prop) (l : list value) : Prop :=
  Forall (fun y => ¬ P y) l.

(** The identifier a host entry contributes, if any: the host passes
    the status filter and the callback adds a string. *)
Definition contributes (host : value) (id : string) : Prop :=
  host_is_up host = Ok true ∧ add_host set_empty host = Ok [id].

(** The filter's verdict and the callback's contribution as plain
    data; an exception counts as [false] and as no contribution. *)
Definition passes_filter (host : value) : bool :=
  match host_is_up host with Ok b => b | Throw _ => false end.

Definition identifier_of (host : value) : option string :=
  match add_host set_empty host with
  | Ok ids => head ids
  | Throw _ => None
  end.

Definition add_identifier (s : StrSet) (host : value) : StrSet :=
  match identifier_of host with
  | Some id => set_add s id
  | None => s
  end.

(** How often the character [c] occurs in [s]. *)
Fixpoint count_char (c : ascii) (s : string) : nat :=
  match s with
  | EmptyString => 0
  | String a rest => (if Ascii.eqb a c then 1 else 0) + count_char c rest
  end.

(** *** Reading a trace *)

Definition is_notification (ev : event) : bool :=
  match ev with
  | Exec command => String.prefix "notify-send" command
  | _ => false
  end.

Definition notifications (evs : list event) : list event :=
  List.filter is_notification evs.

Definition is_console_log (ev : event) : Prop :=
  match ev with ConsoleLog _ => True | _ => False end.

(** The console lines of lines 109 to 115. *)
Definition log_lines (c : changes) (currentHosts : StrSet) : list event :=
  if hasChanges c then
    map (fun host => ConsoleLog ("[+] NEW DEVICE: " +:+ host)) (newDevices c) ++
    map (fun host => ConsoleLog ("[-] DEVICE LEFT: " +:+ host)) (leftDevices c)
  else
    [ConsoleLog ("No changes. " +:+ show_nat (set_size currentHosts) +:+ " hosts active.")].

(** What the second [if] of the [try] block leaves in the trace. *)
Definition left_events (e : env) (c : changes) : list event :=
  match leftDevices c with
  | [] => []
  | _ :: _ =>
      Exec (devices_left_command c) ::
      match notify_send e (devices_left_command c) with
      | None => []
      | Some err => [ConsoleError ("[Error] Failed to send notification: " +:+ message err)]
      end
  end.

(** What lines 119 to 139 leave in the trace. *)
Definition notify_events (e : env) (c : changes) : list event :=
  if hasChanges c && negb (isFirstScan c) then
    match newDevices c with
    | [] => left_events e c
    | _ :: _ =>
        Exec (new_devices_command c) ::
        match notify_send e (new_devices_command c) with
        | None => left_events e c
        | Some err => [ConsoleError ("[Error] Failed to send notification: " +:+ message err)]
        end
    end
  else [].

Definition scan_started : list event :=
  [ConsoleLog ("Scanning " +:+ SCAN_TARGET +:+ "..."); Exec nmap_command].

Definition scan_failed (err : error) : list event :=
  scan_started ++ [ConsoleError ("[Error] Scan failed: " +:+ stack err)].

(** *** The two notifications *)

(** The trace holds the [Devices Left] notification whose body lists
    exactly [hosts]. *)
Definition departure_burst (hosts : list string) (evs : list event) : Prop :=
  Exec (notify_command devices_left_title (devices_left_body hosts)) ∈ evs.

(** The trace holds the [New Devices] notification whose body lists
    exactly [hosts]. *)
Definition arrival_burst (hosts : list string) (evs : list event) : Prop :=
  Exec (notify_command new_devices_title (new_devices_body hosts)) ∈ evs.

(** A cycle whose scan fails sends the departure burst for [previous],
    and the next cycle, whose scan finds [found], sends the arrival
    burst for [found]. *)
Definition failure_then_recovery_bursts
    (e_fail e_ok : env) (previous found : StrSet) (tr : list event) : Prop :=
  ∃ evs1 evs2,
    checkForChanges e_fail {| previousHosts := previous; trace := tr |}
      = (Ok tt, {| previousHosts := set_empty; trace := tr ++ evs1 |}) ∧
    departure_burst previous evs1 ∧
    checkForChanges e_ok {| previousHosts := set_empty; trace := tr ++ evs1 |}
      = (Ok tt, {| previousHosts := found; trace := (tr ++ evs1) ++ evs2 |}) ∧
    arrival_burst found evs2.

(** Each notification that is due in a cycle is attempted, whatever
    happens to the other one. *)
Definition notifications_independent (e : env) (w : world) : Prop :=
  ∃ currentHosts evs,
    checkForChanges e w
      = (Ok tt, {| previousHosts := currentHosts; trace := trace w ++ evs |}) ∧
    let c := diff_hosts (previousHosts w) currentHosts in
    (isFirstScan c = false → newDevices c ≠ [] → Exec (new_devices_command c) ∈ evs) ∧
    (isFirstScan c = false → leftDevices c ≠ [] → Exec (devices_left_command c) ∈ evs).

(** An entry the normaliser passes over: no status, no address list,
    or no address of the primary family among its addresses. *)
Definition malformed (host : value) : Prop :=
  get host "status" = Ok VUndefined ∨
  get host "address" = Ok VUndefined ∨
  none_with (has_addrtype "ipv4") (host_addresses host).

(** *** Overlap of cycles *)

(** No cycle starts while an earlier one has not finished. *)
Definition no_overlap (cycles : list span) : Prop :=
  ∀ (i j : nat) (a b : span),
    (i < j)%nat → cycles !! i = Some a → cycles !! j = Some b →
    (finished a < started b)%Z.

End Props.

(* ================================================================== *)
(** ** Concrete reports and collaborators                              *)
(* ================================================================== *)

Module Examples.
Import JS Eff Monitor.

Definition address (addrtype addr : string) (more : list (string * value)) : value :=
  VObj [("$", VObj (("addr", VStr addr) :: ("addrtype", VStr addrtype) :: more))].

Definition host_entry (state : string) (addresses : list value) : value :=
  VObj [("status", VArr [VObj [("$", VObj [("state", VStr state)])]]);
        ("address", VArr addresses)].

Definition report (hosts : list value) : value :=
  VObj [("nmaprun", VObj [("host", VArr hosts)])].

Definition acme_mac : value :=
  address "mac" "AA:BB:CC:DD:EE:FF" [("vendor", VStr "Acme")].

Definition host5 : value := host_entry "up" [address "ipv4" "10.0.0.5" []; acme_mac].
Definition host5_down : value := host_entry "down" [address "ipv4" "10.0.0.5" []; acme_mac].
Definition host9 : value := host_entry "up" [address "ipv4" "10.0.0.9" []].

Definition id5 : string := "10.0.0.5 (AA:BB:CC:DD:EE:FF - Acme)".
Definition id9 : string := "10.0.0.9 (No MAC)".

(** Scanner and notifier both work; the parser returns [result]. *)
Definition env_finding (result : value) : env :=
  {| nmap := None;
     xml_file := Ok "<nmaprun/>";
     parseStringPromise := fun _ => Ok result;
     notify_send := fun _ => None |}.

Definition exit_1 : error :=
  {| message := "Command failed"; stack := "Error: Command failed" |}.

(** The scanner process exits non-zero. *)
Definition env_scan_failing : env :=
  {| nmap := Some exit_1;
     xml_file := Ok "<nmaprun/>";
     parseStringPromise := fun _ => Ok (report []);
     notify_send := fun _ => None |}.

(** The scan finds [result]; the notifier fails on every command whose
    title is [Network: New Devices] and works on the others. *)
Definition env_new_devices_undeliverable (result : value) : env :=
  {| nmap := None;
     xml_file := Ok "<nmaprun/>";
     parseStringPromise := fun _ => Ok result;
     notify_send := fun command =>
       if String.prefix ("notify-send -t 5000 " +:+ dquote +:+ new_devices_title) command
       then Some exit_1 else None |}.

Definition world5 : world := {| previousHosts := [id5]; trace := [] |}.

(** The first cycle takes one second, the second takes longer than the
    interval, the third one second again. *)
Definition slow_second_cycle : list Z := [1000; 400000; 1000]%Z.

End Examples.

(* ================================================================== *)
(** ** Sets and loops                                                  *)
(* ================================================================== *)

Section SetLemmas.
Import JS.

Lemma set_has_true (s : StrSet) (x : string) : set_has s x = true ↔ x ∈ s.
Proof.
  unfold set_has. rewrite existsb_exists. split.
  - intros (y & Hy & Heq). apply String.eqb_eq in Heq. subst y.
    by apply list_elem_of_In.
  - intros Hx. exists x. split; [by apply list_elem_of_In | apply String.eqb_refl].
Qed.

Lemma set_has_false (s : StrSet) (x : string) : set_has s x = false ↔ x ∉ s.
Proof.
  rewrite <- set_has_true. destruct (set_has s x); split; congruence.
Qed.

Lemma set_add_elem (s : StrSet) (x y : string) : y ∈ set_add s x ↔ y ∈ s ∨ y = x.
Proof.
  unfold set_add. destruct (set_has s x) eqn:E.
  - apply set_has_true in E. split; [auto | intros [H | ->]; done].
  - rewrite elem_of_app, list_elem_of_singleton. done.
Qed.

Lemma set_add_NoDup (s : StrSet) (x : string) : NoDup s → NoDup (set_add s x).
Proof.
  intros Hs. unfold set_add. destruct (set_has s x) eqn:E; [done |].
  apply set_has_false in E. apply NoDup_app. split_and!; [done | | apply NoDup_singleton].
  intros y Hy ->%list_elem_of_singleton. done.
Qed.

Lemma fold_push (keep : string → bool) (xs out : list string) :
  fold_left (fun out x => if keep x then out ++ [x] else out) xs out
  = out ++ List.filter keep xs.
Proof.
  revert out. induction xs as [| x xs IH]; intros out; simpl.
  - by rewrite app_nil_r.
  - rewrite IH. destruct (keep x); [by rewrite <- app_assoc | done].
Qed.

Lemma push_each_filter (keep : string → bool) (xs : list string) :
  push_each keep xs = List.filter keep xs.
Proof. unfold push_each. by rewrite fold_push. Qed.

Lemma push_each_elem (keep : string → bool) (xs : list string) (x : string) :
  x ∈ push_each keep xs ↔ x ∈ xs ∧ keep x = true.
Proof.
  rewrite push_each_filter, !list_elem_of_In. apply filter_In.
Qed.

Lemma push_each_all (keep : string → bool) (xs : list string) :
  (∀ x, x ∈ xs → keep x = true) → push_each keep xs = xs.
Proof.
  rewrite push_each_filter. induction xs as [| x xs IH]; intros Hall; simpl; [done |].
  rewrite (Hall x) by apply list_elem_of_here. f_equal. apply IH.
  intros y Hy. apply Hall. by apply list_elem_of_further.
Qed.

Lemma push_each_none (keep : string → bool) (xs : list string) :
  (∀ x, x ∈ xs → keep x = false) → push_each keep xs = [].
Proof.
  rewrite push_each_filter. induction xs as [| x xs IH]; intros Hnone; simpl; [done |].
  rewrite (Hnone x) by apply list_elem_of_here. apply IH.
  intros y Hy. apply Hnone. by apply list_elem_of_further.
Qed.

End SetLemmas.

(* ================================================================== *)
(** ** Running the effects                                             *)
(* ================================================================== *)

Section Runs.
Import JS Eff Monitor Props.

Lemma bind_run {A B : Type} (m : eff A) (f : A → eff B) (w : world) :
  (m ≫= f) w =
  match m w with
  | (Ok a, w') => f a w'
  | (Throw e, w') => (Throw e, w')
  end.
Proof. reflexivity. Qed.

Lemma world_eta (w : world) : {| previousHosts := previousHosts w; trace := trace w |} = w.
Proof. by destruct w. Qed.

Lemma log_each_run (prefix : string) (xs : list string) (w : world) :
  log_each prefix xs w =
  (Ok tt, {| previousHosts := previousHosts w;
             trace := trace w ++ map (fun x => ConsoleLog (prefix +:+ x)) xs |}).
Proof.
  revert w. induction xs as [| x xs IH]; intros w; simpl.
  - by rewrite app_nil_r, world_eta.
  - rewrite bind_run. unfold console_log, emit. rewrite IH. simpl.
    by rewrite <- app_assoc.
Qed.

Lemma log_changes_run (c : changes) (currentHosts : StrSet) (w : world) :
  log_changes c currentHosts w =
  (Ok tt, {| previousHosts := previousHosts w;
             trace := trace w ++ log_lines c currentHosts |}).
Proof.
  unfold log_changes, log_lines. destruct (hasChanges c).
  - rewrite bind_run, log_each_run, log_each_run. simpl.
    by rewrite <- app_assoc.
  - reflexivity.
Qed.

Lemma send_notifications_run (e : env) (c : changes) (w : world) :
  send_notifications e c w =
  (Ok tt, {| previousHosts := previousHosts w;
             trace := trace w ++ notify_events e c |}).
Proof.
  unfold send_notifications, notify_events, left_events.
  destruct (hasChanges c && negb (isFirstScan c)).
  2: { unfold mret, eff_ret. by rewrite app_nil_r, world_eta. }
  unfold try_catch. rewrite bind_run.
  destruct (newDevices c) as [| n ns], (leftDevices c) as [| l ls]; simpl;
    unfold execPromise, console_error, emit, mret, eff_ret; simpl.
  - by rewrite app_nil_r, world_eta.
  - destruct (notify_send e (devices_left_command c)); simpl;
      by rewrite <- ?app_assoc.
  - destruct (notify_send e (new_devices_command c)); simpl;
      by rewrite <- ?app_assoc.
  - destruct (notify_send e (new_devices_command c)); simpl.
    + by rewrite <- ?app_assoc.
    + destruct (notify_send e (devices_left_command c)); simpl;
        by rewrite <- ?app_assoc.
Qed.

Lemma scan_total (e : env) :
  (∃ err, scan_fails e err) ∨ (∃ found, scan_finds e found).
Proof.
  destruct (nmap e) as [err |] eqn:Hn; [left; exists err; by apply fail_process |].
  destruct (xml_file e) as [xml | err] eqn:Hx; [| left; exists err; by apply fail_read].
  destruct (parseStringPromise e xml) as [result | err] eqn:Hp;
    [| left; exists err; by eapply fail_parse].
  destruct (extract_hosts result) as [found | err] eqn:Hf.
  - right. exists found. by eapply scan_ok.
  - left. exists err. by eapply fail_extract.
Qed.

Lemma scan_fails_finds (e : env) (err : error) (found : StrSet) :
  scan_fails e err → scan_finds e found → False.
Proof.
  intros Hf [xml result Hn Hx Hp He].
  destruct Hf as [Hn' | Hn' Hx' | xml' Hn' Hx' Hp' | xml' result' Hn' Hx' Hp' He'];
    congruence.
Qed.

Lemma getActiveHosts_fails (e : env) (err : error) (w : world) :
  scan_fails e err →
  getActiveHosts e w =
  (Ok set_empty, {| previousHosts := previousHosts w;
                    trace := trace w ++ scan_failed err |}).
Proof.
  intros Hf. unfold getActiveHosts, try_catch, scan_failed, scan_started.
  unfold mbind, eff_bind, console_log, console_error, emit, execPromise, lift.
  destruct Hf as [Hn | Hn Hx | xml Hn Hx Hp | xml result Hn Hx Hp He].
  - rewrite Hn. cbn -[String.append]. by rewrite <- !app_assoc.
  - rewrite Hn, Hx. cbn -[String.append]. by rewrite <- !app_assoc.
  - rewrite Hn, Hx, Hp. cbn -[String.append]. by rewrite <- !app_assoc.
  - rewrite Hn, Hx, Hp, He. cbn -[String.append]. by rewrite <- !app_assoc.
Qed.

Lemma getActiveHosts_finds (e : env) (found : StrSet) (w : world) :
  scan_finds e found →
  getActiveHosts e w =
  (Ok found, {| previousHosts := previousHosts w;
                trace := trace w ++ scan_started |}).
Proof.
  intros [xml result Hn Hx Hp He]. unfold getActiveHosts, try_catch, scan_started.
  unfold mbind, eff_bind, console_log, emit, execPromise, lift.
  rewrite Hn, Hx, Hp, He. cbn -[String.append]. by rewrite <- !app_assoc.
Qed.

Lemma checkForChanges_finds (e : env) (found : StrSet) (w : world) :
  scan_finds e found →
  let c := diff_hosts (previousHosts w) found in
  checkForChanges e w =
  (Ok tt, {| previousHosts := found;
             trace := trace w ++ scan_started ++ log_lines c found ++ notify_events e c |}).
Proof.
  intros Hf c. unfold checkForChanges.
  rewrite bind_run, (getActiveHosts_finds e found w Hf).
  unfold compute_changes. rewrite !bind_run. unfold read_previousHosts. simpl.
  unfold mret, eff_ret. rewrite !bind_run, log_changes_run. simpl.
  rewrite bind_run, send_notifications_run. unfold write_previousHosts. simpl.
  by rewrite <- !app_assoc.
Qed.

Lemma checkForChanges_fails (e : env) (err : error) (w : world) :
  scan_fails e err →
  let c := diff_hosts (previousHosts w) set_empty in
  checkForChanges e w =
  (Ok tt, {| previousHosts := set_empty;
             trace := trace w ++ scan_failed err ++ log_lines c set_empty
                        ++ notify_events e c |}).
Proof.
  intros Hf c. unfold checkForChanges.
  rewrite bind_run, (getActiveHosts_fails e err w Hf).
  unfold compute_changes. rewrite !bind_run. unfold read_previousHosts. simpl.
  unfold mret, eff_ret. rewrite !bind_run, log_changes_run. simpl.
  rewrite bind_run, send_notifications_run. unfold write_previousHosts. simpl.
  by rewrite <- !app_assoc.
Qed.

End Runs.

(* ================================================================== *)
(** ** Property access on parsed values                                *)
(* ================================================================== *)

Section Access.
Import JS Monitor Props.

Lemma get_truthy (v : value) (name : string) :
  truthy v = true → ∃ x, get v name = Ok x.
Proof. destruct v; simpl; try discriminate; eauto. Qed.

Lemma get0_truthy (v : value) : truthy v = true → ∃ x, get0 v = Ok x.
Proof.
  destruct v as [| | s | l | props]; simpl; try discriminate; intros _.
  - destruct s; eauto.
  - destruct l; eauto.
  - eauto.
Qed.

(** Only an object has a property that is not [undefined]. *)
Lemma get_defined (v x : value) (name : string) :
  get v name = Ok x → x ≠ VUndefined → ∃ props, v = VObj props.
Proof.
  destruct v; simpl; intros H Hx; try discriminate; try (injection H as <-; done).
  eauto.
Qed.

Lemma get_str_truthy (v : value) (name s : string) :
  get v name = Ok (VStr s) → truthy v = true.
Proof. intros H. apply get_defined in H as [props ->]; done. Qed.

Lemma get_obj_truthy (v : value) (name : string) (props : list (string * value)) :
  get v name = Ok (VObj props) → truthy v = true.
Proof. intros H. apply get_defined in H as [props' ->]; done. Qed.

Lemma get0_obj_truthy (v : value) (props : list (string * value)) :
  get0 v = Ok (VObj props) → truthy v = true.
Proof.
  destruct v as [| | s | l | ps]; simpl; try discriminate; try done.
  destruct s; [discriminate | done].
Qed.

Lemma strict_eq_str_true (v : value) (s : string) :
  strict_eq_str v s = true ↔ v = VStr s.
Proof.
  destruct v; simpl; try (split; [discriminate | congruence]).
  rewrite String.eqb_eq. split; congruence.
Qed.

Lemma and_also_true (v : value) (rest : exc bool) :
  and_also v rest = Ok true ↔ truthy v = true ∧ rest = Ok true.
Proof.
  unfold and_also. destruct (truthy v); split; try tauto; try discriminate.
  intros [? _]. discriminate.
Qed.

Lemma and_also_total (v : value) (rest : exc bool) :
  (truthy v = true → ∃ b, rest = Ok b) → ∃ b, and_also v rest = Ok b.
Proof. unfold and_also. destruct (truthy v); eauto. Qed.

(** The filter predicate never throws. *)
Lemma host_is_up_total (host : value) : ∃ b, host_is_up host = Ok b.
Proof.
  unfold host_is_up.
  apply and_also_total. intros [status ->]%(get_truthy _ "status"). simpl.
  apply and_also_total. intros [status0 ->]%get0_truthy. simpl.
  apply and_also_total. intros [attrs ->]%(get_truthy _ "$"). simpl.
  apply and_also_total. intros [state ->]%(get_truthy _ "state"). simpl.
  eauto.
Qed.

Lemma host_is_up_true (host : value) : host_is_up host = Ok true ↔ status_up host.
Proof.
  unfold host_is_up, status_up. split.
  - intros [Hh H]%and_also_true.
    destruct (get_truthy host "status" Hh) as [status Hs]. rewrite Hs in H |- *. simpl in H.
    apply and_also_true in H as [Hst H].
    destruct (get0_truthy status Hst) as [status0 Hs0]. rewrite Hs0 in H. simpl in H.
    apply and_also_true in H as [Hst0 H].
    destruct (get_truthy status0 "$" Hst0) as [attrs Ha]. rewrite Ha in H. simpl in H.
    apply and_also_true in H as [Hat H].
    destruct (get_truthy attrs "state" Hat) as [state Hstate]. rewrite Hstate in H. simpl in H.
    injection H as H. apply strict_eq_str_true in H. subst state.
    exists status, status0, attrs. done.
  - intros (status & status0 & attrs & Hs & Hs0 & Ha & Hstate).
    pose proof (get_str_truthy _ _ _ Hstate) as Hat.
    destruct (get_defined _ _ _ Hstate ltac:(done)) as [aprops Eattrs].
    assert (truthy status0 = true) as Hst0.
    { rewrite Eattrs in Ha. by apply get_obj_truthy in Ha. }
    destruct (get_defined _ _ _ Ha ltac:(by rewrite Eattrs)) as [sprops Estatus0].
    assert (truthy status = true) as Hst.
    { rewrite Estatus0 in Hs0. by apply get0_obj_truthy in Hs0. }
    assert (truthy host = true) as Hh.
    { destruct host; simpl in Hs; try discriminate; try done;
        injection Hs as <-; discriminate. }
    apply and_also_true. split; [done |]. rewrite Hs. simpl.
    apply and_also_true. split; [done |]. rewrite Hs0. simpl.
    apply and_also_true. split; [done |]. rewrite Ha. simpl.
    apply and_also_true. split; [done |]. rewrite Hstate. simpl. done.
Qed.

Lemma addr_has_type_total (addrtype : string) (addr : value) :
  ∃ b, addr_has_type addrtype addr = Ok b.
Proof.
  unfold addr_has_type.
  apply and_also_total. intros [attrs ->]%(get_truthy _ "$"). simpl.
  apply and_also_total. intros [ty ->]%(get_truthy _ "addrtype"). simpl.
  eauto.
Qed.

Lemma addr_has_type_true (addrtype : string) (addr : value) :
  addr_has_type addrtype addr = Ok true ↔ has_addrtype addrtype addr.
Proof.
  unfold addr_has_type, has_addrtype. split.
  - intros [Ha H]%and_also_true.
    destruct (get_truthy addr "$" Ha) as [attrs Hattrs]. rewrite Hattrs in H |- *. simpl in H.
    apply and_also_true in H as [Hat H].
    destruct (get_truthy attrs "addrtype" Hat) as [ty Hty]. rewrite Hty in H. simpl in H.
    injection H as H. apply strict_eq_str_true in H. subst ty.
    exists attrs. done.
  - intros (attrs & Hattrs & Hty).
    pose proof (get_str_truthy _ _ _ Hty) as Hat.
    destruct (get_defined _ _ _ Hty ltac:(done)) as [aprops Eattrs].
    assert (truthy addr = true) as Ha.
    { rewrite Eattrs in Hattrs. by apply get_obj_truthy in Hattrs. }
    apply and_also_true. split; [done |]. rewrite Hattrs. simpl.
    apply and_also_true. split; [done |]. rewrite Hty. simpl.
    f_equal. apply String.eqb_refl.
Qed.

Lemma addr_has_type_false (addrtype : string) (addr : value) :
  addr_has_type addrtype addr = Ok false ↔ ¬ has_addrtype addrtype addr.
Proof.
  rewrite <- addr_has_type_true.
  destruct (addr_has_type_total addrtype addr) as [[] ->]; split; congruence.
Qed.

Lemma has_addrtype_truthy (addrtype : string) (addr : value) :
  has_addrtype addrtype addr → truthy addr = true.
Proof.
  intros H. apply addr_has_type_true in H. unfold addr_has_type in H.
  by apply and_also_true in H as [Ha _].
Qed.

End Access.

(* ================================================================== *)
(** ** Normalisation of a report                                       *)
(* ================================================================== *)

Section Normalisation.
Import JS Monitor Props.

Lemma find_addr_first (addrtype : string) (l : list value) (x : value) :
  first_with (has_addrtype addrtype) l x → find (addr_has_type addrtype) l = Ok x.
Proof.
  intros (before & after & -> & Hx & Hbefore).
  induction Hbefore as [| y before Hy _ IH]; simpl.
  - apply addr_has_type_true in Hx. by rewrite Hx.
  - apply addr_has_type_false in Hy. by rewrite Hy.
Qed.

Lemma find_addr_none (addrtype : string) (l : list value) :
  none_with (has_addrtype addrtype) l → find (addr_has_type addrtype) l = Ok VUndefined.
Proof.
  intros Hnone. induction Hnone as [| y l Hy _ IH]; simpl; [done |].
  apply addr_has_type_false in Hy. by rewrite Hy.
Qed.

Lemma first_or_none (addrtype : string) (l : list value) :
  (∃ x, first_with (has_addrtype addrtype) l x) ∨ none_with (has_addrtype addrtype) l.
Proof.
  induction l as [| y l IH]; [right; constructor |].
  destruct (addr_has_type_total addrtype y) as [[] Hy].
  - left. exists y, [], l. split_and!; [done | by apply addr_has_type_true | constructor].
  - apply addr_has_type_false in Hy.
    destruct IH as [(x & before & after & -> & Hx & Hbefore) | Hnone].
    + left. exists x, (y :: before), after. split_and!; [done | done | by constructor].
    + right. by constructor.
Qed.

Lemma first_with_none_with (addrtype : string) (l : list value) (x : value) :
  first_with (has_addrtype addrtype) l x → none_with (has_addrtype addrtype) l → False.
Proof.
  intros (before & after & -> & Hx & _) Hnone.
  apply Forall_app in Hnone as [_ Hnone]. by inversion Hnone.
Qed.

(** An entry of the wanted type is an object whose [$] is an object. *)
Lemma has_addrtype_attrs (addrtype : string) (addr : value) :
  has_addrtype addrtype addr →
  ∃ props, get addr "$" = Ok (VObj props) ∧ lookup_prop "addrtype" props = VStr addrtype.
Proof.
  intros (attrs & Hattrs & Hty).
  destruct (get_defined _ _ _ Hty ltac:(done)) as [props ->].
  exists props. split; [done |]. simpl in Hty. congruence.
Qed.

Lemma filter_hosts (l : list value) :
  JS.filter host_is_up l = Ok (List.filter passes_filter l).
Proof.
  induction l as [| h l IH]; simpl; [done |].
  unfold passes_filter at 1. destruct (host_is_up_total h) as [b ->]. simpl.
  rewrite IH. simpl. by destruct b.
Qed.

Lemma passes_filter_up (host : value) : passes_filter host = true ↔ status_up host.
Proof.
  rewrite <- host_is_up_true. unfold passes_filter.
  destruct (host_is_up host) as [[] |]; split; congruence.
Qed.

Lemma passes_filter_truthy (host : value) : passes_filter host = true → truthy host = true.
Proof.
  intros H. apply passes_filter_up, host_is_up_true in H.
  unfold host_is_up in H. by apply and_also_true in H as [Hh _].
Qed.

Lemma host_addresses_get (host v : value) :
  get host "address" = Ok v → host_addresses host = as_array v.
Proof.
  destruct host; simpl; try discriminate; intros H; injection H as <-; done.
Qed.

(** The host has no address of the primary family: the callback
    returns early. *)
Lemma add_host_skip (s : StrSet) (host v : value) :
  get host "address" = Ok v →
  none_with (has_addrtype "ipv4") (as_array v) →
  add_host s host = Ok s.
Proof.
  intros Hv Hnone. unfold add_host. rewrite Hv. simpl.
  rewrite (find_addr_none _ _ Hnone). done.
Qed.

Lemma add_host_no_mac (s : StrSet) (host v ipObj ipAttrs ip : value) :
  get host "address" = Ok v →
  first_with (has_addrtype "ipv4") (as_array v) ipObj →
  get ipObj "$" = Ok ipAttrs → get ipAttrs "addr" = Ok ip →
  none_with (has_addrtype "mac") (as_array v) →
  add_host s host = Ok (set_add s (identifier_no_mac (toString ip))).
Proof.
  intros Hv Hip Hattrs Haddr Hnone. unfold add_host. rewrite Hv. simpl.
  rewrite (find_addr_first _ _ _ Hip). simpl.
  destruct Hip as (_ & _ & _ & Hty & _).
  rewrite (has_addrtype_truthy _ _ Hty). simpl.
  rewrite Hattrs. simpl. rewrite Haddr. simpl.
  rewrite (find_addr_none _ _ Hnone). done.
Qed.

Lemma add_host_mac (s : StrSet) (host v ipObj ipAttrs ip macObj macAttrs mac vendor : value) :
  get host "address" = Ok v →
  first_with (has_addrtype "ipv4") (as_array v) ipObj →
  get ipObj "$" = Ok ipAttrs → get ipAttrs "addr" = Ok ip →
  first_with (has_addrtype "mac") (as_array v) macObj →
  get macObj "$" = Ok macAttrs →
  get macAttrs "addr" = Ok mac → get macAttrs "vendor" = Ok vendor →
  add_host s host =
  Ok (set_add s (identifier_with_mac (toString ip) (toString mac)
                   (toString (or_else vendor (VStr "Unknown"))))).
Proof.
  intros Hv Hip Hattrs Haddr Hmac Hmattrs Hmaddr Hvendor.
  unfold add_host. rewrite Hv. simpl.
  rewrite (find_addr_first _ _ _ Hip). simpl.
  destruct Hip as (_ & _ & _ & Hty & _).
  rewrite (has_addrtype_truthy _ _ Hty). simpl.
  rewrite Hattrs. simpl. rewrite Haddr. simpl.
  rewrite (find_addr_first _ _ _ Hmac). simpl.
  destruct Hmac as (_ & _ & _ & Hmty & _).
  rewrite (has_addrtype_truthy _ _ Hmty).
  rewrite Hmattrs. simpl. rewrite Hmaddr. simpl. rewrite Hvendor. simpl. done.
Qed.

Lemma set_add_empty (id : string) : set_add set_empty id = [id].
Proof. reflexivity. Qed.

(** On a truthy host the callback never throws: it leaves the set as
    it is or adds one identifier, the same whatever the set holds. *)
Lemma add_host_identifier (s : StrSet) (host : value) :
  truthy host = true → add_host s host = Ok (add_identifier s host).
Proof.
  intros Hh. destruct (get_truthy host "address" Hh) as [v Hv].
  unfold add_identifier, identifier_of.
  destruct (first_or_none "ipv4" (as_array v)) as [[ipObj Hip] | Hnone].
  2: { rewrite (add_host_skip s _ _ Hv Hnone), (add_host_skip set_empty _ _ Hv Hnone). done. }
  pose proof Hip as (_ & _ & _ & Hty & _).
  destruct (has_addrtype_attrs _ _ Hty) as (ipProps & Hattrs & _).
  assert (get (VObj ipProps) "addr" = Ok (lookup_prop "addr" ipProps)) as Haddr by done.
  destruct (first_or_none "mac" (as_array v)) as [[macObj Hmac] | Hnomac].
  - pose proof Hmac as (_ & _ & _ & Hmty & _).
    destruct (has_addrtype_attrs _ _ Hmty) as (macProps & Hmattrs & _).
    assert (get (VObj macProps) "addr" = Ok (lookup_prop "addr" macProps)) as Hmaddr by done.
    assert (get (VObj macProps) "vendor" = Ok (lookup_prop "vendor" macProps)) as Hvendor by done.
    rewrite (add_host_mac s _ _ _ _ _ _ _ _ _ Hv Hip Hattrs Haddr Hmac Hmattrs Hmaddr Hvendor).
    rewrite (add_host_mac set_empty _ _ _ _ _ _ _ _ _ Hv Hip Hattrs Haddr Hmac Hmattrs Hmaddr Hvendor).
    by rewrite set_add_empty.
  - rewrite (add_host_no_mac s _ _ _ _ _ Hv Hip Hattrs Haddr Hnomac).
    rewrite (add_host_no_mac set_empty _ _ _ _ _ Hv Hip Hattrs Haddr Hnomac).
    by rewrite set_add_empty.
Qed.

Lemma forEach_add_host (l : list value) (s : StrSet) :
  Forall (fun h => truthy h = true) l →
  forEach add_host l s = Ok (fold_left add_identifier l s).
Proof.
  intros Hl. revert s. induction Hl as [| h l Hh _ IH]; intros s; simpl; [done |].
  rewrite (add_host_identifier s h Hh). simpl. apply IH.
Qed.

(** Step 4 on a report that has a root: no exception, and the set is
    built host by host from the entries that pass the filter. *)
Lemma extract_hosts_ok (result : value) :
  result ≠ VUndefined → result ≠ VNull →
  extract_hosts result =
  Ok (fold_left add_identifier (List.filter passes_filter (report_hosts result)) set_empty).
Proof.
  intros Hu Hn. unfold extract_hosts, report_hosts.
  destruct result as [| | s | l | props]; try done.
  simpl. destruct (lookup_prop "nmaprun" props) as [| | s | l | nprops] eqn:E; try done.
  - simpl. by destruct s.
  - simpl. destruct (truthy (lookup_prop "host" nprops)); [| done].
    rewrite filter_hosts. simpl. apply forEach_add_host.
    apply Forall_forall. intros h Hin%list_elem_of_In%filter_In.
    apply passes_filter_truthy. tauto.
Qed.

Lemma extract_hosts_no_root (result : value) :
  result = VUndefined ∨ result = VNull →
  extract_hosts result = Throw (type_error (nullish_name result) "nmaprun").
Proof. by intros [-> | ->]. Qed.

Lemma normalize_fold (result : value) :
  normalize result =
  fold_left add_identifier (List.filter passes_filter (report_hosts result)) set_empty.
Proof.
  unfold normalize. destruct result as [| | s | l | props] eqn:E; try done;
    rewrite extract_hosts_ok; done.
Qed.

Lemma fold_add_identifier_elem (l : list value) (s : StrSet) (id : string) :
  id ∈ fold_left add_identifier l s ↔
  id ∈ s ∨ ∃ h, h ∈ l ∧ identifier_of h = Some id.
Proof.
  revert s. induction l as [| h l IH]; intros s; simpl.
  - split; [auto | intros [? | (h & Hh & _)]; [done | by apply elem_of_nil in Hh]].
  - rewrite IH. unfold add_identifier at 1. split.
    + intros [Hin | (h' & Hh' & Hid)].
      * destruct (identifier_of h) as [id' |] eqn:E; [| by left].
        apply set_add_elem in Hin as [Hin | ->]; [by left |].
        right. exists h. split; [apply list_elem_of_here | done].
      * right. exists h'. split; [by apply list_elem_of_further | done].
    + intros [Hin | (h' & Hh' & Hid)].
      * left. destruct (identifier_of h); [apply set_add_elem; by left | done].
      * apply elem_of_cons in Hh' as [-> | Hh'].
        -- left. rewrite Hid. apply set_add_elem. by right.
        -- right. by exists h'.
Qed.

Lemma fold_add_identifier_NoDup (l : list value) (s : StrSet) :
  NoDup s → NoDup (fold_left add_identifier l s).
Proof.
  revert s. induction l as [| h l IH]; intros s Hs; simpl; [done |].
  apply IH. unfold add_identifier. destruct (identifier_of h); [by apply set_add_NoDup | done].
Qed.

End Normalisation.

(* ================================================================== *)
(** ** The presence differ                                             *)
(* ================================================================== *)

Section Differ.
Import JS Eff Monitor Props.

Lemma isFirstScan_empty (previous current : StrSet) :
  isFirstScan (diff_hosts previous current) = true ↔ previous = [].
Proof.
  simpl. unfold set_size. rewrite Nat.eqb_eq. by destruct previous.
Qed.

Lemma newDevices_elem (previous current : StrSet) (x : string) :
  x ∈ newDevices (diff_hosts previous current) ↔ x ∈ current ∧ x ∉ previous.
Proof.
  simpl. rewrite push_each_elem, negb_true_iff, set_has_false. done.
Qed.

Lemma leftDevices_elem (previous current : StrSet) (x : string) :
  x ∈ leftDevices (diff_hosts previous current) ↔ x ∈ previous ∧ x ∉ current.
Proof.
  simpl. rewrite push_each_elem, negb_true_iff, set_has_false. done.
Qed.

Lemma diff_from_empty (current : StrSet) :
  diff_hosts set_empty current =
  {| isFirstScan := true; newDevices := current; leftDevices := [] |}.
Proof.
  unfold diff_hosts. f_equal. by apply push_each_all.
Qed.

Lemma diff_to_empty (previous : StrSet) :
  diff_hosts previous set_empty =
  {| isFirstScan := Nat.eqb (set_size previous) 0;
     newDevices := []; leftDevices := previous |}.
Proof.
  unfold diff_hosts. f_equal. by apply push_each_all.
Qed.

(** C4. For every pair of host sets, the diff of a cycle has as
    arrivals exactly the elements of the current set that are not in
    the previous one, as departures exactly the elements of the
    previous set that are not in the current one, and raises the
    first-scan flag exactly when the previous set is empty. Computing
    it emits nothing and leaves the stored set, and so both inputs, as
    they were: the world after is the world before. Both lists keep
    the iteration order of the set they are taken from. *)
Theorem diff_is_exact_and_pure (previous current : StrSet) (tr : list event) :
  let w := {| previousHosts := previous; trace := tr |} in
  ∃ c : changes,
    compute_changes current w = (Ok c, w) ∧
    (∀ x, x ∈ newDevices c ↔ x ∈ current ∧ x ∉ previous) ∧
    (∀ x, x ∈ leftDevices c ↔ x ∈ previous ∧ x ∉ current) ∧
    (isFirstScan c = true ↔ previous = []) ∧
    newDevices c = List.filter (fun x => negb (set_has previous x)) current ∧
    leftDevices c = List.filter (fun x => negb (set_has current x)) previous.
Proof.
  intros w. exists (diff_hosts previous current). split_and!.
  - reflexivity.
  - apply newDevices_elem.
  - apply leftDevices_elem.
  - apply isFirstScan_empty.
  - apply push_each_filter.
  - apply push_each_filter.
Qed.

End Differ.

(* ================================================================== *)
(** ** One cycle                                                       *)
(* ================================================================== *)

Section Cycle.
Import JS Eff Monitor Props.

Lemma notifications_app (a b : list event) :
  notifications (a ++ b) = notifications a ++ notifications b.
Proof. apply List.filter_app. Qed.

Lemma notifications_scan_started : notifications scan_started = [].
Proof. reflexivity. Qed.

Lemma notifications_scan_failed (err : error) : notifications (scan_failed err) = [].
Proof. reflexivity. Qed.

Lemma notifications_console (evs : list event) :
  Forall is_console_log evs → notifications evs = [].
Proof.
  induction 1 as [| ev evs Hev _ IH]; [done |].
  destruct ev; simpl in *; done.
Qed.

Lemma log_lines_console (c : changes) (currentHosts : StrSet) :
  Forall is_console_log (log_lines c currentHosts).
Proof.
  unfold log_lines. destruct (hasChanges c).
  - apply Forall_app. split; apply Forall_forall; intros ev Hev;
      apply list_elem_of_In, in_map_iff in Hev as (h & <- & _); exact I.
  - repeat constructor.
Qed.

Lemma log_lines_nonempty (c : changes) (currentHosts : StrSet) :
  log_lines c currentHosts ≠ [].
Proof.
  unfold log_lines, hasChanges.
  destruct (newDevices c) as [| n ns]; [destruct (leftDevices c) as [| l ls] |]; done.
Qed.

Lemma notify_events_first_scan (e : env) (c : changes) :
  isFirstScan c = true → notify_events e c = [].
Proof.
  intros H. unfold notify_events. rewrite H. by rewrite andb_false_r.
Qed.

(** What one call of [checkForChanges] does, for every behaviour of the
    collaborators: it returns normally, stores the scan's set (the empty
    set after a failure) and appends the scan's events, the log lines and
    the notification events. *)
Lemma checkForChanges_run (e : env) (w : world) :
  ∃ currentHosts scan_evs,
    getActiveHosts e w =
      (Ok currentHosts, {| previousHosts := previousHosts w; trace := trace w ++ scan_evs |}) ∧
    notifications scan_evs = [] ∧
    let c := diff_hosts (previousHosts w) currentHosts in
    checkForChanges e w =
      (Ok tt, {| previousHosts := currentHosts;
                 trace := trace w ++ scan_evs ++ log_lines c currentHosts
                            ++ notify_events e c |}).
Proof.
  destruct (scan_total e) as [[err Hf] | [found Hf]].
  - exists set_empty, (scan_failed err). split_and!.
    + by apply getActiveHosts_fails.
    + apply notifications_scan_failed.
    + by apply checkForChanges_fails.
  - exists found, scan_started. split_and!.
    + by apply getActiveHosts_finds.
    + apply notifications_scan_started.
    + by apply checkForChanges_finds.
Qed.

Lemma run_cycles_total (es : list env) (w : world) :
  ∃ stored evs,
    run_cycles es w = (Ok tt, {| previousHosts := stored; trace := trace w ++ evs |}).
Proof.
  revert w. induction es as [| e es IH]; intros w; simpl.
  - exists (previousHosts w), []. unfold mret, eff_ret. by rewrite app_nil_r, world_eta.
  - rewrite bind_run.
    destruct (checkForChanges_run e w) as (cur & scan_evs & _ & _ & ->).
    destruct (IH {| previousHosts := cur;
                    trace := trace w ++ scan_evs
                      ++ log_lines (diff_hosts (previousHosts w) cur) cur
                      ++ notify_events e (diff_hosts (previousHosts w) cur) |})
      as (stored & evs & Hevs).
    rewrite Hevs. simpl. exists stored. eexists. by rewrite <- app_assoc.
Qed.

(** C5. In every cycle whose first-scan flag is true, whatever the
    arrivals and departures are, everything the cycle emits after the
    scan is console output, there is at least one such line, and no
    notifier process is started anywhere in the cycle. *)
Theorem first_scan_flag_suppresses_notifications (e : env) (w : world) :
  ∃ currentHosts scan_evs report_evs,
    getActiveHosts e w =
      (Ok currentHosts, {| previousHosts := previousHosts w; trace := trace w ++ scan_evs |}) ∧
    checkForChanges e w =
      (Ok tt, {| previousHosts := currentHosts;
                 trace := trace w ++ scan_evs ++ report_evs |}) ∧
    (isFirstScan (diff_hosts (previousHosts w) currentHosts) = true →
       report_evs ≠ [] ∧ Forall is_console_log report_evs ∧
       notifications (scan_evs ++ report_evs) = []).
Proof.
  destruct (checkForChanges_run e w) as (cur & scan_evs & Hscan & Hquiet & Hrun).
  exists cur, scan_evs.
  exists (log_lines (diff_hosts (previousHosts w) cur) cur
            ++ notify_events e (diff_hosts (previousHosts w) cur)).
  split_and!; [done | done |].
  intros Hfirst. rewrite (notify_events_first_scan _ _ Hfirst), app_nil_r.
  split_and!.
  - apply log_lines_nonempty.
  - apply log_lines_console.
  - rewrite notifications_app, Hquiet. simpl.
    apply notifications_console, log_lines_console.
Qed.

End Cycle.

(* ================================================================== *)
(** ** Notification delivery                                           *)
(* ================================================================== *)

Section Delivery.
Import JS Eff Monitor Props Examples.

Lemma hasChanges_new (c : changes) : newDevices c ≠ [] → hasChanges c = true.
Proof. unfold hasChanges. by destruct (newDevices c). Qed.

Lemma hasChanges_left (c : changes) : leftDevices c ≠ [] → hasChanges c = true.
Proof.
  unfold hasChanges. destruct (leftDevices c); [done |]. intros _. apply orb_true_r.
Qed.

Lemma left_events_attempt (e : env) (c : changes) :
  leftDevices c ≠ [] → Exec (devices_left_command c) ∈ left_events e c.
Proof.
  unfold left_events. destruct (leftDevices c); [done |]. intros _. apply list_elem_of_here.
Qed.

Lemma left_events_logged (e : env) (c : changes) (err : error) :
  leftDevices c ≠ [] → notify_send e (devices_left_command c) = Some err →
  ConsoleError ("[Error] Failed to send notification: " +:+ message err) ∈ left_events e c.
Proof.
  unfold left_events. destruct (leftDevices c); [done |]. intros _ ->.
  apply list_elem_of_further, list_elem_of_here.
Qed.

Lemma notify_events_new_attempt (e : env) (c : changes) :
  isFirstScan c = false → newDevices c ≠ [] →
  Exec (new_devices_command c) ∈ notify_events e c.
Proof.
  intros Hfirst Hnew. unfold notify_events.
  rewrite (hasChanges_new c Hnew), Hfirst. simpl.
  destruct (newDevices c); [done |]. apply list_elem_of_here.
Qed.

Lemma notify_events_new_failed (e : env) (c : changes) (err : error) :
  isFirstScan c = false → newDevices c ≠ [] →
  notify_send e (new_devices_command c) = Some err →
  notify_events e c =
  [Exec (new_devices_command c);
   ConsoleError ("[Error] Failed to send notification: " +:+ message err)].
Proof.
  intros Hfirst Hnew Hsend. unfold notify_events.
  rewrite (hasChanges_new c Hnew), Hfirst, Hsend. simpl.
  by destruct (newDevices c).
Qed.

(** Once the first notification is out of the way, the second [if] of
    the [try] block is reached. *)
Lemma notify_events_reach_left (e : env) (c : changes) :
  isFirstScan c = false → leftDevices c ≠ [] →
  newDevices c = [] ∨ notify_send e (new_devices_command c) = None →
  ∃ before, notify_events e c = before ++ left_events e c.
Proof.
  intros Hfirst Hleft Hnew. unfold notify_events.
  rewrite (hasChanges_left c Hleft), Hfirst. simpl.
  destruct (newDevices c) as [| n ns] eqn:E.
  - by exists [].
  - destruct Hnew as [? | ->]; [done |]. by exists [Exec (new_devices_command c)].
Qed.

(** C2, as the code has it. For every cycle and every behaviour of the
    notifier: the cycle returns normally and stores the scan's set; the
    [New Devices] notification is attempted whenever it is due, whatever
    happens to the other one; the [Devices Left] notification is
    attempted when it is due and the first one was not due or was
    delivered; a failed delivery is logged. The two notifications share
    one [try] block: when the [New Devices] delivery fails, the block is
    left, the failure is logged and nothing else is attempted. *)
Theorem notification_failure_is_contained (e : env) (w : world) :
  ∃ currentHosts scan_evs note_evs,
    getActiveHosts e w =
      (Ok currentHosts, {| previousHosts := previousHosts w; trace := trace w ++ scan_evs |}) ∧
    let c := diff_hosts (previousHosts w) currentHosts in
    checkForChanges e w =
      (Ok tt, {| previousHosts := currentHosts;
                 trace := trace w ++ scan_evs ++ log_lines c currentHosts ++ note_evs |}) ∧
    (isFirstScan c = false → newDevices c ≠ [] →
       Exec (new_devices_command c) ∈ note_evs) ∧
    (isFirstScan c = false → leftDevices c ≠ [] →
       newDevices c = [] ∨ notify_send e (new_devices_command c) = None →
       Exec (devices_left_command c) ∈ note_evs ∧
       ∀ err, notify_send e (devices_left_command c) = Some err →
         ConsoleError ("[Error] Failed to send notification: " +:+ message err) ∈ note_evs) ∧
    (∀ err, isFirstScan c = false → newDevices c ≠ [] →
       notify_send e (new_devices_command c) = Some err →
       note_evs = [Exec (new_devices_command c);
                   ConsoleError ("[Error] Failed to send notification: " +:+ message err)]).
Proof.
  destruct (checkForChanges_run e w) as (cur & scan_evs & Hscan & _ & Hrun).
  exists cur, scan_evs, (notify_events e (diff_hosts (previousHosts w) cur)).
  split; [done |]. cbv zeta. split; [exact Hrun |].
  generalize (diff_hosts (previousHosts w) cur). intros c. split_and!.
  - apply notify_events_new_attempt.
  - intros Hfirst Hleft Hnew.
    destruct (notify_events_reach_left e c Hfirst Hleft Hnew) as [before ->]. split.
    + apply elem_of_app. right. by apply left_events_attempt.
    + intros err Herr. apply elem_of_app. right. by apply left_events_logged.
  - intros err. apply notify_events_new_failed.
Qed.

(** C2, a cycle against it: the previous set holds one host, the scan
    finds another one, and the notifier fails on the [New Devices]
    command. Both notifications are due; the [Devices Left] one is never
    attempted. *)
Lemma failed_new_devices_skips_devices_left :
  ¬ notifications_independent (env_new_devices_undeliverable (report [host9])) world5.
Proof.
  intros (cur & evs & Hrun & _ & Hleft).
  vm_compute in Hrun. injection Hrun as <- <-.
  cbv zeta in Hleft. specialize (Hleft eq_refl ltac:(discriminate)).
  revert Hleft. apply (bool_decide_eq_false_1 (_ ∈ _)). vm_compute. reflexivity.
Qed.

End Delivery.

(* ================================================================== *)
(** ** Scan failures and the empty stored set                          *)
(* ================================================================== *)

Section Failures.
Import JS Eff Monitor Props Examples.

Lemma log_lines_new (c : changes) (currentHosts : StrSet) (h : string) :
  h ∈ newDevices c → ConsoleLog ("[+] NEW DEVICE: " +:+ h) ∈ log_lines c currentHosts.
Proof.
  intros Hh. unfold log_lines. rewrite hasChanges_new.
  - apply elem_of_app. left. apply list_elem_of_In.
    apply (in_map (fun host => ConsoleLog ("[+] NEW DEVICE: " +:+ host))).
    by apply list_elem_of_In.
  - intros E. rewrite E in Hh. by apply elem_of_nil in Hh.
Qed.

(** A cycle that starts from the empty stored set. *)
Lemma cycle_from_empty (e : env) (tr : list event) :
  ∃ currentHosts evs,
    checkForChanges e {| previousHosts := set_empty; trace := tr |}
      = (Ok tt, {| previousHosts := currentHosts; trace := tr ++ evs |}) ∧
    notifications evs = [] ∧
    (∀ found, scan_finds e found →
       currentHosts = found ∧
       ∀ h, h ∈ found → ConsoleLog ("[+] NEW DEVICE: " +:+ h) ∈ evs).
Proof.
  destruct (checkForChanges_run e {| previousHosts := set_empty; trace := tr |})
    as (cur & scan_evs & Hscan & Hquiet & Hrun).
  cbv zeta in Hrun. simpl in Hrun, Hscan. rewrite diff_from_empty in Hrun.
  exists cur. eexists. split_and!; [exact Hrun | |].
  - rewrite !notifications_app, Hquiet, notify_events_first_scan by done.
    simpl. rewrite app_nil_r.
    apply notifications_console, log_lines_console.
  - intros found Hfinds.
    rewrite (getActiveHosts_finds _ _ _ Hfinds) in Hscan. injection Hscan as <- _.
    split; [done |]. intros h Hh.
    apply elem_of_app. right. apply elem_of_app. left.
    by apply log_lines_new.
Qed.

(** A cycle whose scan fails while hosts are known. *)
Lemma failing_cycle (e : env) (err : error) (previous : StrSet) (tr : list event) :
  scan_fails e err → previous ≠ [] →
  ∃ evs,
    checkForChanges e {| previousHosts := previous; trace := tr |}
      = (Ok tt, {| previousHosts := set_empty; trace := tr ++ evs |}) ∧
    ConsoleError ("[Error] Scan failed: " +:+ stack err) ∈ evs ∧
    departure_burst previous evs.
Proof.
  intros Hf Hprev.
  pose proof (checkForChanges_fails e err {| previousHosts := previous; trace := tr |} Hf)
    as Hrun.
  cbv zeta in Hrun. cbn [previousHosts trace] in Hrun. rewrite diff_to_empty in Hrun.
  eexists. split_and!; [exact Hrun | |].
  - apply elem_of_app. left. unfold scan_failed. apply elem_of_app. right.
    apply list_elem_of_here.
  - unfold departure_burst. apply elem_of_app. right. apply elem_of_app. right.
    unfold notify_events, hasChanges, left_events, devices_left_command. simpl.
    destruct previous as [| p ps]; [done |]. simpl. apply list_elem_of_here.
Qed.

(** C10. The first-scan flag is recomputed in every cycle from the
    emptiness of the stored set. So every cycle that starts with the
    empty stored set has the flag raised, reports every host of its scan
    as an arrival, and starts no notifier process; this holds in
    particular for the cycle that follows a failed scan and for the one
    that follows a scan that found no host. *)
Theorem empty_stored_set_suppresses_notifications :
  (∀ (e : env) (w : world), previousHosts w = [] →
     ∃ currentHosts evs,
       checkForChanges e w
         = (Ok tt, {| previousHosts := currentHosts; trace := trace w ++ evs |}) ∧
       isFirstScan (diff_hosts (previousHosts w) currentHosts) = true ∧
       newDevices (diff_hosts (previousHosts w) currentHosts) = currentHosts ∧
       notifications evs = []) ∧
  (∀ (e1 e2 : env) (w : world),
     (∃ err, scan_fails e1 err) ∨ scan_finds e1 [] →
     ∃ evs1 currentHosts evs2,
       checkForChanges e1 w
         = (Ok tt, {| previousHosts := []; trace := trace w ++ evs1 |}) ∧
       checkForChanges e2 {| previousHosts := []; trace := trace w ++ evs1 |}
         = (Ok tt, {| previousHosts := currentHosts; trace := (trace w ++ evs1) ++ evs2 |}) ∧
       newDevices (diff_hosts [] currentHosts) = currentHosts ∧
       notifications evs2 = []).
Proof.
  split.
  - intros e [previous tr] Hempty. simpl in Hempty. subst previous.
    destruct (cycle_from_empty e tr) as (cur & evs & Hrun & Hquiet & _).
    exists cur, evs. simpl. split_and!; [done | done | | done].
    by apply push_each_all.
  - intros e1 e2 w Hfirst.
    assert (∃ evs1, checkForChanges e1 w
              = (Ok tt, {| previousHosts := []; trace := trace w ++ evs1 |})) as [evs1 H1].
    { destruct Hfirst as [[err Hf] | Hf].
      - pose proof (checkForChanges_fails e1 err w Hf) as H. eexists. exact H.
      - pose proof (checkForChanges_finds e1 [] w Hf) as H. eexists. exact H. }
    destruct (cycle_from_empty e2 (trace w ++ evs1)) as (cur & evs2 & H2 & Hquiet & _).
    exists evs1, cur, evs2. split_and!; [done | done | | done].
    simpl. by apply push_each_all.
Qed.

(** C6. Whatever the scanner, the report file and the parser do, a
    cycle returns normally and stores a host set, and so does any number
    of cycles in a row. When the scan fails in any of the four ways, the
    failure is logged with [console.error], the cycle goes on with the
    empty set through the diff, the log lines and the notifications, and
    the empty set is what it stores. *)
Theorem scan_failure_is_contained :
  (∀ (e : env) (w : world),
     ∃ currentHosts evs,
       checkForChanges e w
         = (Ok tt, {| previousHosts := currentHosts; trace := trace w ++ evs |})) ∧
  (∀ (es : list env) (w : world),
     ∃ stored evs,
       run_cycles es w = (Ok tt, {| previousHosts := stored; trace := trace w ++ evs |})) ∧
  (∀ (e : env) (err : error) (w : world), scan_fails e err →
     let c := diff_hosts (previousHosts w) set_empty in
     getActiveHosts e w
       = (Ok set_empty,
          {| previousHosts := previousHosts w;
             trace := trace w ++ scan_started
                        ++ [ConsoleError ("[Error] Scan failed: " +:+ stack err)] |}) ∧
     checkForChanges e w
       = (Ok tt,
          {| previousHosts := set_empty;
             trace := trace w ++ (scan_started
                        ++ [ConsoleError ("[Error] Scan failed: " +:+ stack err)])
                        ++ log_lines c set_empty ++ notify_events e c |}) ∧
     newDevices c = [] ∧ leftDevices c = previousHosts w).
Proof.
  split_and!.
  - intros e w. destruct (checkForChanges_run e w) as (cur & scan_evs & _ & _ & Hrun).
    exists cur. eexists. exact Hrun.
  - apply run_cycles_total.
  - intros e err w Hf c. split_and!.
    + by apply getActiveHosts_fails.
    + by apply checkForChanges_fails.
    + done.
    + unfold c. by rewrite diff_to_empty.
Qed.

(** C1, as the code has it. When hosts are known and a scan fails, that
    cycle logs the failure, sends the [Devices Left] notification that
    lists every known host, and stores the empty set. The cycle after
    it, whose scan succeeds, stores the hosts found and logs each of
    them as a new device, but starts no notifier process: it begins with
    the empty stored set, so its first-scan flag is raised. *)
Theorem failure_burst_then_silent_recovery
    (e_fail e_ok : env) (err : error) (previous found : StrSet) (tr : list event) :
  previous ≠ [] → scan_fails e_fail err → scan_finds e_ok found →
  ∃ evs1 evs2,
    checkForChanges e_fail {| previousHosts := previous; trace := tr |}
      = (Ok tt, {| previousHosts := set_empty; trace := tr ++ evs1 |}) ∧
    departure_burst previous evs1 ∧
    checkForChanges e_ok {| previousHosts := set_empty; trace := tr ++ evs1 |}
      = (Ok tt, {| previousHosts := found; trace := (tr ++ evs1) ++ evs2 |}) ∧
    notifications evs2 = [] ∧
    (∀ h, h ∈ found → ConsoleLog ("[+] NEW DEVICE: " +:+ h) ∈ evs2).
Proof.
  intros Hprev Hfail Hfinds.
  destruct (failing_cycle e_fail err previous tr Hfail Hprev) as (evs1 & H1 & _ & Hburst).
  destruct (cycle_from_empty e_ok (tr ++ evs1)) as (cur & evs2 & H2 & Hquiet & Hfound).
  destruct (Hfound found Hfinds) as [-> Hlogged].
  exists evs1, evs2. done.
Qed.

(** C1, a run against it: one host is known, the scanner exits
    non-zero, and the next scan finds the same host again. The second
    cycle sends no [New Devices] notification. *)
Lemma recovery_cycle_sends_no_arrival_burst :
  [id5] ≠ [] ∧
  scan_fails env_scan_failing exit_1 ∧
  scan_finds (env_finding (report [host5])) [id5] ∧
  ¬ failure_then_recovery_bursts env_scan_failing (env_finding (report [host5]))
      [id5] [id5] [].
Proof.
  split_and!.
  - discriminate.
  - by apply fail_process.
  - by eapply scan_ok.
  - intros (evs1 & evs2 & H1 & _ & H2 & Hburst).
    vm_compute in H1. injection H1 as <-.
    vm_compute in H2. injection H2 as <-.
    unfold arrival_burst in Hburst.
    revert Hburst. apply (bool_decide_eq_false_1 (_ ∈ _)). vm_compute. reflexivity.
Qed.

End Failures.

(* ================================================================== *)
(** ** Host identifiers                                                *)
(* ================================================================== *)

Section Identifiers.
Import JS Monitor Props.

Lemma append_inv_head (p a b : string) : p +:+ a = p +:+ b → a = b.
Proof.
  induction p as [| c p IH]; simpl; [done |]. intros H. injection H as H. by apply IH.
Qed.

Lemma count_char_app (c : ascii) (a b : string) :
  count_char c (a +:+ b) = (count_char c a + count_char c b)%nat.
Proof.
  induction a as [| x a IH]; simpl; [done |]. rewrite IH. lia.
Qed.

(** The two shapes never meet on one primary address: the first holds
    a hyphen after the address, the second does not. *)
Lemma identifier_shapes_differ (ip mac vendor : string) :
  identifier_with_mac ip mac vendor ≠ identifier_no_mac ip.
Proof.
  unfold identifier_with_mac, identifier_no_mac. intros H.
  apply append_inv_head in H.
  apply (f_equal (count_char "-"%char)) in H.
  rewrite !count_char_app in H. simpl in H. lia.
Qed.

(** A host with an address of the primary family gets an identifier,
    the same whatever the set already holds. *)
Lemma add_host_adds (host v ipObj : value) :
  get host "address" = Ok v →
  first_with (has_addrtype "ipv4") (as_array v) ipObj →
  ∃ id, ∀ s, add_host s host = Ok (set_add s id).
Proof.
  intros Hv Hip.
  pose proof Hip as (_ & _ & _ & Hty & _).
  destruct (has_addrtype_attrs _ _ Hty) as (ipProps & Hattrs & _).
  assert (get (VObj ipProps) "addr" = Ok (lookup_prop "addr" ipProps)) as Haddr by done.
  destruct (first_or_none "mac" (as_array v)) as [[macObj Hmac] | Hnomac].
  - pose proof Hmac as (_ & _ & _ & Hmty & _).
    destruct (has_addrtype_attrs _ _ Hmty) as (macProps & Hmattrs & _).
    assert (get (VObj macProps) "addr" = Ok (lookup_prop "addr" macProps)) as Hmaddr by done.
    assert (get (VObj macProps) "vendor" = Ok (lookup_prop "vendor" macProps)) as Hvendor by done.
    eexists. intros s.
    apply (add_host_mac s _ _ _ _ _ _ _ _ _ Hv Hip Hattrs Haddr Hmac Hmattrs Hmaddr Hvendor).
  - eexists. intros s.
    apply (add_host_no_mac s _ _ _ _ _ Hv Hip Hattrs Haddr Hnomac).
Qed.

Lemma contributes_data (host : value) (id : string) :
  contributes host id ↔ passes_filter host = true ∧ identifier_of host = Some id.
Proof.
  unfold contributes. split.
  - intros [Hup Hadd]. split.
    + unfold passes_filter. by rewrite Hup.
    + unfold identifier_of. by rewrite Hadd.
  - intros [Hpass Hid]. split.
    + by apply host_is_up_true, passes_filter_up.
    + rewrite (add_host_identifier set_empty host (passes_filter_truthy _ Hpass)).
      unfold add_identifier. by rewrite Hid.
Qed.

(** Which hosts contribute: those whose status is [up] and that have
    an address of the primary family. *)
Lemma contributes_iff (host : value) :
  (∃ id, contributes host id) ↔
  status_up host ∧ ∃ a, a ∈ host_addresses host ∧ has_addrtype "ipv4" a.
Proof.
  split.
  - intros (id & Hup & Hadd). split; [by apply host_is_up_true |].
    assert (truthy host = true) as Hh.
    { unfold host_is_up in Hup. by apply and_also_true in Hup as [? _]. }
    destruct (get_truthy host "address" Hh) as [v Hv].
    rewrite (host_addresses_get _ _ Hv).
    destruct (first_or_none "ipv4" (as_array v))
      as [(ipObj & before & after & -> & Hty & _) | Hnone].
    + exists ipObj. split; [| done]. apply elem_of_app. right. apply list_elem_of_here.
    + rewrite (add_host_skip _ _ _ Hv Hnone) in Hadd. discriminate.
  - intros (Hup & a & Ha & Hty).
    pose proof Hup as Hup'. apply host_is_up_true in Hup'.
    assert (truthy host = true) as Hh.
    { unfold host_is_up in Hup'. by apply and_also_true in Hup' as [? _]. }
    destruct (get_truthy host "address" Hh) as [v Hv].
    rewrite (host_addresses_get _ _ Hv) in Ha.
    destruct (first_or_none "ipv4" (as_array v)) as [[ipObj Hip] | Hnone].
    + destruct (add_host_adds _ _ _ Hv Hip) as [id Hid].
      exists id. split; [done |]. by rewrite Hid.
    + exfalso. unfold none_with in Hnone. rewrite Forall_forall in Hnone.
      by apply (Hnone a).
Qed.

Lemma normalize_elem (result : value) (id : string) :
  id ∈ normalize result ↔ ∃ h, h ∈ report_hosts result ∧ contributes h id.
Proof.
  rewrite normalize_fold, fold_add_identifier_elem. split.
  - intros [Hin | (h & Hh & Hid)]; [by apply elem_of_nil in Hin |].
    apply list_elem_of_In, filter_In in Hh as [Hh Hpass].
    exists h. split; [by apply list_elem_of_In | by apply contributes_data].
  - intros (h & Hh & [Hpass Hid]%contributes_data).
    right. exists h. split; [| done].
    apply list_elem_of_In, filter_In. split; [by apply list_elem_of_In | done].
Qed.

(** An entry that contributes nothing can be dropped from the report. *)
Lemma normalize_drop (r r' : value) (before after : list value) (h : value) :
  report_hosts r = before ++ h :: after →
  report_hosts r' = before ++ after →
  ¬ (∃ id, contributes h id) →
  normalize r = normalize r'.
Proof.
  intros Hr Hr' Hno. rewrite !normalize_fold, Hr, Hr'.
  rewrite !List.filter_app, !fold_left_app. simpl.
  destruct (passes_filter h) eqn:Hpass; [| done]. simpl.
  unfold add_identifier at 2. destruct (identifier_of h) as [id |] eqn:Hid; [| done].
  exfalso. apply Hno. exists id. by apply contributes_data.
Qed.

Lemma malformed_contributes (h : value) : malformed h → ¬ (∃ id, contributes h id).
Proof.
  intros Hbad (Hup & a & Ha & Hty)%contributes_iff.
  destruct Hbad as [Hstatus | [Haddr | Hnone]].
  - destruct Hup as (status & status0 & attrs & Hs & Hs0 & _).
    rewrite Hstatus in Hs. injection Hs as <-. discriminate.
  - rewrite (host_addresses_get _ _ Haddr) in Ha. simpl in Ha.
    apply list_elem_of_singleton in Ha as ->.
    destruct Hty as (attrs & Hattrs & _). discriminate.
  - unfold none_with in Hnone. rewrite Forall_forall in Hnone.
    by apply (Hnone a).
Qed.

End Identifiers.

(* ================================================================== *)
(** ** The report normaliser                                           *)
(* ================================================================== *)

Section Normaliser.
Import JS Eff Monitor Props Examples.

(** C7. Normalisation never raises. [getActiveHosts] returns a set for
    every behaviour of scanner, file and parser, and once the parser has
    produced a value it returns [normalize] of it. On a parsed value
    that has a root, step 4 itself throws nothing; on [undefined] or
    [null] the [catch] block turns the error into the empty set. A report
    without host entries gives the empty set, a host field that is no
    array is read as one entry, and an entry with no status, with no
    address list, or with no primary-family address among its addresses
    is passed over: the result is that of the report without it. *)
Theorem normalization_never_raises :
  (∀ (e : env) (w : world),
     ∃ s evs, getActiveHosts e w =
       (Ok s, {| previousHosts := previousHosts w; trace := trace w ++ evs |})) ∧
  (∀ (e : env) (w : world) (xml : string) (result : value),
     nmap e = None → xml_file e = Ok xml → parseStringPromise e xml = Ok result →
     fst (getActiveHosts e w) = Ok (normalize result)) ∧
  (∀ result, result ≠ VUndefined → result ≠ VNull →
     extract_hosts result = Ok (normalize result)) ∧
  (normalize VUndefined = [] ∧ normalize VNull = []) ∧
  (∀ result, report_hosts result = [] → normalize result = []) ∧
  (∀ (nprops : list (string * value)) (h : value),
     lookup_prop "host" nprops = h → truthy h = true → isArray h = false →
     report_hosts (VObj [("nmaprun", VObj nprops)]) = [h]) ∧
  (∀ (r r' : value) (before after : list value) (h : value),
     report_hosts r = before ++ h :: after →
     report_hosts r' = before ++ after →
     malformed h →
     normalize r = normalize r').
Proof.
  split_and!.
  - intros e w. destruct (checkForChanges_run e w) as (s & evs & H & _). by exists s, evs.
  - intros e w xml result Hn Hx Hp. unfold normalize.
    destruct (extract_hosts result) as [found | err] eqn:He.
    + by rewrite (getActiveHosts_finds e found w (scan_ok e found xml result Hn Hx Hp He)).
    + by rewrite (getActiveHosts_fails e err w (fail_extract e err xml result Hn Hx Hp He)).
  - intros result Hu Hn. by rewrite normalize_fold, extract_hosts_ok.
  - done.
  - done.
  - intros result Hempty. by rewrite normalize_fold, Hempty.
  - intros nprops h Hh Htruthy Harr. unfold report_hosts. simpl.
    rewrite Hh, Htruthy. by destruct h.
  - intros r r' before after h Hr Hr' Hbad.
    eapply normalize_drop; [done | done | by apply malformed_contributes].
Qed.

(** C8. The normalised set of a report holds exactly the identifiers
    contributed by its host entries, and an entry contributes exactly
    when its status is [up] and it has an address of the [ipv4] family.
    Any other entry, one that is down or without status or without
    such an address, is left out: the set is the one of the report
    without it. *)
Theorem identity_set_membership :
  (∀ (result : value) (id : string),
     id ∈ normalize result ↔ ∃ h, h ∈ report_hosts result ∧ contributes h id) ∧
  (∀ h : value,
     (∃ id, contributes h id) ↔
     status_up h ∧ ∃ a, a ∈ host_addresses h ∧ has_addrtype "ipv4" a) ∧
  (∀ (r r' : value) (before after : list value) (h : value),
     report_hosts r = before ++ h :: after →
     report_hosts r' = before ++ after →
     ¬ (status_up h ∧ ∃ a, a ∈ host_addresses h ∧ has_addrtype "ipv4" a) →
     normalize r = normalize r').
Proof.
  split_and!.
  - apply normalize_elem.
  - apply contributes_iff.
  - intros r r' before after h Hr Hr' Hout.
    eapply normalize_drop; [done | done |]. by rewrite contributes_iff.
Qed.

(** C9. For a host with an address of the [ipv4] family, the entry
    found first supplies the address. When the host has an address of
    the [mac] family, the one found first supplies the hardware address
    and the vendor, and the identifier is [ip (mac - vendor)], with
    [Unknown] for a vendor that is missing or empty; when it has none,
    the identifier is [ip (No MAC)]. For one address the two shapes are
    never the same string. *)
Theorem identifier_composition (s : StrSet) (host v ipObj : value) :
  get host "address" = Ok v →
  first_with (has_addrtype "ipv4") (as_array v) ipObj →
  ∃ ipAttrs ip,
    get ipObj "$" = Ok ipAttrs ∧ get ipAttrs "addr" = Ok ip ∧
    (∀ macObj, first_with (has_addrtype "mac") (as_array v) macObj →
       ∃ macAttrs mac vendor,
         get macObj "$" = Ok macAttrs ∧
         get macAttrs "addr" = Ok mac ∧ get macAttrs "vendor" = Ok vendor ∧
         add_host s host =
         Ok (set_add s (toString ip +:+ " (" +:+ toString mac +:+ " - "
                          +:+ (if truthy vendor then toString vendor else "Unknown")
                          +:+ ")"))) ∧
    (none_with (has_addrtype "mac") (as_array v) →
       add_host s host = Ok (set_add s (toString ip +:+ " (No MAC)"))) ∧
    (∀ mac vendor : string,
       toString ip +:+ " (" +:+ mac +:+ " - " +:+ vendor +:+ ")"
       ≠ toString ip +:+ " (No MAC)").
Proof.
  intros Hv Hip.
  pose proof Hip as (_ & _ & _ & Hty & _).
  destruct (has_addrtype_attrs _ _ Hty) as (ipProps & Hattrs & _).
  assert (get (VObj ipProps) "addr" = Ok (lookup_prop "addr" ipProps)) as Haddr by done.
  exists (VObj ipProps), (lookup_prop "addr" ipProps). split_and!; [done | done | | |].
  - intros macObj Hmac.
    pose proof Hmac as (_ & _ & _ & Hmty & _).
    destruct (has_addrtype_attrs _ _ Hmty) as (macProps & Hmattrs & _).
    exists (VObj macProps), (lookup_prop "addr" macProps), (lookup_prop "vendor" macProps).
    split_and!; [done | done | done |].
    rewrite (add_host_mac s _ _ _ _ _ _ _ _ _ Hv Hip Hattrs Haddr Hmac Hmattrs eq_refl eq_refl).
    unfold identifier_with_mac, or_else.
    by destruct (truthy (lookup_prop "vendor" macProps)).
  - intros Hnone. apply (add_host_no_mac s _ _ _ _ _ Hv Hip Hattrs Haddr Hnone).
  - intros mac vendor. apply identifier_shapes_differ.
Qed.

End Normaliser.

(* ================================================================== *)
(** ** The poll scheduler                                              *)
(* ================================================================== *)

Section Scheduler.
Import Monitor Props Examples.
Local Open Scope Z_scope.

Lemma timer_cycles_lookup (interval fire : Z) (durations : list Z) (i : nat) (a : span) :
  timer_cycles interval fire durations !! i = Some a →
  ∃ d, durations !! i = Some d ∧
       started a = fire + Z.of_nat i * interval ∧ finished a = started a + d.
Proof.
  revert fire i. induction durations as [| d durations IH]; intros fire i; simpl.
  - by rewrite lookup_nil.
  - destruct i as [| i]; simpl.
    + intros [= <-]. exists d. simpl. split_and!; [done | lia | done].
    + intros H. destruct (IH _ _ H) as (d' & Hd' & Hs & Hf).
      exists d'. split_and!; [done | lia | done].
Qed.

Lemma timer_cycles_no_overlap (interval fire : Z) (durations : list Z) :
  0 < interval →
  Forall (fun d => d < interval) durations →
  no_overlap (timer_cycles interval fire durations).
Proof.
  intros Hpos Hshort i j a b Hij Ha Hb.
  destruct (timer_cycles_lookup _ _ _ _ _ Ha) as (da & Hda & Hsa & Hfa).
  destruct (timer_cycles_lookup _ _ _ _ _ Hb) as (db & Hdb & Hsb & Hfb).
  rewrite Forall_forall in Hshort.
  assert (da < interval) as Hlt.
  { apply Hshort. by eapply list_elem_of_lookup_2. }
  rewrite Hfa, Hsa, Hsb. nia.
Qed.

Lemma timer_cycles_nth (interval fire : Z) (durations : list Z) (k : nat) (d : Z) :
  durations !! k = Some d →
  timer_cycles interval fire durations !! k =
  Some {| started := fire + Z.of_nat k * interval;
          finished := fire + Z.of_nat k * interval + d |}.
Proof.
  revert fire k. induction durations as [| d' durations IH]; intros fire k; simpl.
  - by rewrite lookup_nil.
  - destruct k as [| k]; simpl.
    + intros [= ->]. do 2 f_equal; lia.
    + intros H. rewrite (IH _ _ H). do 2 f_equal; lia.
Qed.

(** C3, as the code has it. [main] awaits the first cycle before it
    arms the timer, so the first cycle never overlaps a later one,
    however long it takes. From then on a cycle starts at every tick of
    the fixed interval whether or not the one before has finished: two
    consecutive timer-driven cycles start one interval apart whatever
    their durations. So no two cycles overlap provided each timer-driven
    cycle finishes in less than the interval, and a timer-driven cycle
    that takes longer than the interval is still pending when the next
    one starts. *)
Theorem no_overlap_when_cycles_are_short (durations : list Z) :
  let cycles := main_cycles SCAN_INTERVAL_MS durations in
  (∀ (j : nat) (a b : span),
     (0 < j)%nat → cycles !! 0%nat = Some a → cycles !! j = Some b →
     finished a < started b) ∧
  (Forall (fun d => d < SCAN_INTERVAL_MS) (tail durations) → no_overlap cycles) ∧
  (∀ (i : nat) (d d' : Z),
     (1 ≤ i)%nat → durations !! i = Some d → durations !! S i = Some d' →
     ∃ a b,
       cycles !! i = Some a ∧ cycles !! S i = Some b ∧
       finished a = started a + d ∧
       started b = started a + SCAN_INTERVAL_MS ∧
       (SCAN_INTERVAL_MS < d → started b < finished a ∧ ¬ no_overlap cycles)).
Proof.
  intros cycles. subst cycles. split_and!.
  - intros j a b Hj Ha Hb.
    destruct durations as [| d0 rest]; simpl in Ha, Hb; [done |].
    injection Ha as <-. destruct j as [| j]; [lia |]. simpl in Hb.
    destruct (timer_cycles_lookup _ _ _ _ _ Hb) as (db & Hdb & Hsb & Hfb).
    simpl. unfold SCAN_INTERVAL_MS in *. lia.
  - intros Hshort. destruct durations as [| d0 rest]; simpl in *.
    + intros i j a b _ Ha. by rewrite lookup_nil in Ha.
    + intros i j a b Hij Ha Hb.
      destruct j as [| j]; [lia |]. simpl in Hb.
      destruct (timer_cycles_lookup _ _ _ _ _ Hb) as (db & Hdb & Hsb & Hfb).
      destruct i as [| i]; simpl in Ha.
      * injection Ha as <-. simpl. unfold SCAN_INTERVAL_MS in *. lia.
      * eapply (timer_cycles_no_overlap SCAN_INTERVAL_MS _ rest);
          [done | done | | done | done].
        lia.
  - intros i d d' Hi Hd Hd'.
    destruct durations as [| d0 rest]; [by rewrite lookup_nil in Hd |].
    destruct i as [| i]; [lia |]. simpl in Hd, Hd'.
    pose proof (timer_cycles_nth SCAN_INTERVAL_MS (d0 + SCAN_INTERVAL_MS) rest i d Hd) as Ha.
    pose proof (timer_cycles_nth SCAN_INTERVAL_MS (d0 + SCAN_INTERVAL_MS) rest (S i) d' Hd')
      as Hb.
    eexists. eexists. split_and!.
    + simpl. exact Ha.
    + simpl. exact Hb.
    + simpl. done.
    + simpl. lia.
    + intros Hlong. split; [simpl; lia |].
      intros Hno.
      assert (S i < S (S i))%nat as Hlt by lia.
      specialize (Hno (S i) (S (S i)) _ _ Hlt Ha Hb). simpl in Hno. lia.
Qed.

(** C3, a run against it: the second cycle takes 400 seconds, longer
    than the interval of 300; the third cycle starts at the next tick
    while the second is still pending. *)
Lemma slow_cycle_overlaps_next :
  ¬ no_overlap (main_cycles SCAN_INTERVAL_MS slow_second_cycle).
Proof.
  intros H.
  specialize (H 1%nat 2%nat {| started := 301000; finished := 701000 |}
                {| started := 601000; finished := 602000 |}
                ltac:(lia) eq_refl eq_refl).
  simpl in H. lia.
Qed.

End Scheduler.

(* ================================================================== *)
(** ** The scenarios of the specification, and instances               *)
(* ================================================================== *)

Section Scenarios.
Import JS Eff Monitor Props Examples.

(** Scenario A: the first cycle sees one host; it is logged, nothing is
    notified. *)
Example scenario_first_cycle :
  checkForChanges (env_finding (report [host5])) initial_world =
  (Ok tt, {| previousHosts := [id5];
             trace := [ConsoleLog "Scanning 10.15.71.1/24...";
                       Exec nmap_command;
                       ConsoleLog "[+] NEW DEVICE: 10.0.0.5 (AA:BB:CC:DD:EE:FF - Acme)"] |}).
Proof. vm_compute. reflexivity. Qed.

(** Scenario B: the known host is down and another one has appeared. *)
Example scenario_swap :
  checkForChanges (env_finding (report [host5_down; host9])) world5 =
  (Ok tt, {| previousHosts := [id9];
             trace := [ConsoleLog "Scanning 10.15.71.1/24...";
                       Exec nmap_command;
                       ConsoleLog "[+] NEW DEVICE: 10.0.0.9 (No MAC)";
                       ConsoleLog "[-] DEVICE LEFT: 10.0.0.5 (AA:BB:CC:DD:EE:FF - Acme)";
                       Exec (notify_command "Network: New Devices"
                               ("Found 1 new device(s):" +:+ newline +:+ id9));
                       Exec (notify_command "Network: Devices Left"
                               ("1 device(s) left:" +:+ newline +:+ id5))] |}).
Proof. vm_compute. reflexivity. Qed.

(** Scenario C: the scanner cannot be run while nothing is known. *)
Example scenario_scan_fails :
  checkForChanges env_scan_failing initial_world =
  (Ok tt, {| previousHosts := [];
             trace := [ConsoleLog "Scanning 10.15.71.1/24...";
                       Exec nmap_command;
                       ConsoleError "[Error] Scan failed: Error: Command failed";
                       ConsoleLog "No changes. 0 hosts active."] |}).
Proof. vm_compute. reflexivity. Qed.

Lemma host5_first_ipv4 :
  first_with (has_addrtype "ipv4")
    (as_array (VArr [address "ipv4" "10.0.0.5" []; acme_mac]))
    (address "ipv4" "10.0.0.5" []).
Proof.
  exists [], [acme_mac]. split_and!; [reflexivity | | constructor].
  eexists. split; reflexivity.
Qed.

Lemma host5_down_not_up : ¬ status_up host5_down.
Proof.
  intros (status & status0 & attrs & Hs & Hs0 & Ha & Hstate).
  vm_compute in Hs. injection Hs as <-.
  vm_compute in Hs0. injection Hs0 as <-.
  vm_compute in Ha. injection Ha as <-.
  vm_compute in Hstate. discriminate.
Qed.

Lemma failure_burst_then_silent_recovery_witness :
  [id5] ≠ [] ∧
  scan_fails env_scan_failing exit_1 ∧
  scan_finds (env_finding (report [host5])) [id5] ∧
  ∃ evs1 evs2,
    checkForChanges env_scan_failing {| previousHosts := [id5]; trace := [] |}
      = (Ok tt, {| previousHosts := set_empty; trace := [] ++ evs1 |}) ∧
    departure_burst [id5] evs1 ∧
    checkForChanges (env_finding (report [host5]))
        {| previousHosts := set_empty; trace := [] ++ evs1 |}
      = (Ok tt, {| previousHosts := [id5]; trace := ([] ++ evs1) ++ evs2 |}) ∧
    notifications evs2 = [] ∧
    (∀ h, h ∈ [id5] → ConsoleLog ("[+] NEW DEVICE: " +:+ h) ∈ evs2).
Proof.
  assert ([id5] ≠ []) as H1 by discriminate.
  assert (scan_fails env_scan_failing exit_1) as H2 by (apply fail_process; reflexivity).
  assert (scan_finds (env_finding (report [host5])) [id5]) as H3
    by (apply (scan_ok _ _ "<nmaprun/>" (report [host5])); reflexivity).
  split_and!; [exact H1 | exact H2 | exact H3 |].
  exact (failure_burst_then_silent_recovery env_scan_failing (env_finding (report [host5]))
           exit_1 [id5] [id5] [] H1 H2 H3).
Defined.

Lemma notification_failure_is_contained_witness :
  ∃ note_evs,
    checkForChanges (env_new_devices_undeliverable (report [host9])) world5 =
      (Ok tt, {| previousHosts := [id9];
                 trace := [] ++ scan_started
                            ++ log_lines (diff_hosts [id5] [id9]) [id9] ++ note_evs |}) ∧
    note_evs = [Exec (new_devices_command (diff_hosts [id5] [id9]));
                ConsoleError "[Error] Failed to send notification: Command failed"].
Proof.
  destruct (notification_failure_is_contained
              (env_new_devices_undeliverable (report [host9])) world5)
    as (cur & scan_evs & note_evs & Hscan & Hrun & _ & _ & Hfailed).
  vm_compute in Hscan. injection Hscan as <- <-.
  exists note_evs. split; [exact Hrun |].
  apply (Hfailed exit_1); [reflexivity | discriminate | reflexivity].
Defined.

Lemma first_scan_flag_suppresses_notifications_witness :
  ∃ report_evs,
    checkForChanges (env_finding (report [host5])) initial_world =
      (Ok tt, {| previousHosts := [id5];
                 trace := [] ++ scan_started ++ report_evs |}) ∧
    report_evs ≠ [] ∧ Forall is_console_log report_evs ∧
    notifications (scan_started ++ report_evs) = [].
Proof.
  destruct (first_scan_flag_suppresses_notifications
              (env_finding (report [host5])) initial_world)
    as (cur & scan_evs & report_evs & Hscan & Hrun & Hflag).
  vm_compute in Hscan. injection Hscan as <- <-.
  exists report_evs. split; [exact Hrun |].
  apply Hflag. reflexivity.
Defined.

Lemma empty_stored_set_suppresses_notifications_witness :
  previousHosts initial_world = [] ∧
  ∃ currentHosts evs,
    checkForChanges (env_finding (report [host5; host9])) initial_world
      = (Ok tt, {| previousHosts := currentHosts; trace := trace initial_world ++ evs |}) ∧
    isFirstScan (diff_hosts (previousHosts initial_world) currentHosts) = true ∧
    newDevices (diff_hosts (previousHosts initial_world) currentHosts) = currentHosts ∧
    notifications evs = [].
Proof.
  split; [reflexivity |].
  apply (proj1 empty_stored_set_suppresses_notifications
           (env_finding (report [host5; host9])) initial_world).
  reflexivity.
Defined.

Lemma scan_failure_is_contained_witness :
  scan_fails env_scan_failing exit_1 ∧
  checkForChanges env_scan_failing world5 =
    (Ok tt,
     {| previousHosts := set_empty;
        trace := trace world5
                   ++ (scan_started ++ [ConsoleError ("[Error] Scan failed: " +:+ stack exit_1)])
                   ++ log_lines (diff_hosts (previousHosts world5) set_empty) set_empty
                   ++ notify_events env_scan_failing
                        (diff_hosts (previousHosts world5) set_empty) |}) ∧
  leftDevices (diff_hosts (previousHosts world5) set_empty) = [id5].
Proof.
  assert (scan_fails env_scan_failing exit_1) as Hf by (apply fail_process; reflexivity).
  split; [exact Hf |].
  destruct (proj2 (proj2 scan_failure_is_contained) env_scan_failing exit_1 world5 Hf)
    as (_ & Hrun & _ & Hleft).
  split; [exact Hrun | exact Hleft].
Defined.

Lemma normalization_never_raises_witness :
  malformed (VObj []) ∧
  normalize (report [host9; VObj []; host5]) = normalize (report [host9; host5]).
Proof.
  assert (malformed (VObj [])) as Hbad by (left; reflexivity).
  split; [exact Hbad |].
  apply (proj2 (proj2 (proj2 (proj2 (proj2 (proj2 normalization_never_raises)))))
           (report [host9; VObj []; host5]) (report [host9; host5])
           [host9] [host5] (VObj [])); [reflexivity | reflexivity | exact Hbad].
Defined.

Lemma identity_set_membership_witness :
  ¬ (status_up host5_down ∧
     ∃ a, a ∈ host_addresses host5_down ∧ has_addrtype "ipv4" a) ∧
  normalize (report [host5_down; host9]) = normalize (report [host9]).
Proof.
  assert (¬ (status_up host5_down ∧
             ∃ a, a ∈ host_addresses host5_down ∧ has_addrtype "ipv4" a)) as Hout.
  { intros [Hup _]. exact (host5_down_not_up Hup). }
  split; [exact Hout |].
  apply (proj2 (proj2 identity_set_membership)
           (report [host5_down; host9]) (report [host9]) [] [host9] host5_down);
    [reflexivity | reflexivity | exact Hout].
Defined.

Lemma identifier_composition_witness :
  get host5 "address" = Ok (VArr [address "ipv4" "10.0.0.5" []; acme_mac]) ∧
  first_with (has_addrtype "ipv4")
    (as_array (VArr [address "ipv4" "10.0.0.5" []; acme_mac]))
    (address "ipv4" "10.0.0.5" []) ∧
  ∃ ip, ∀ mac vendor : string,
    toString ip +:+ " (" +:+ mac +:+ " - " +:+ vendor +:+ ")" ≠ toString ip +:+ " (No MAC)".
Proof.
  split; [reflexivity |]. split; [exact host5_first_ipv4 |].
  destruct (identifier_composition set_empty host5
              (VArr [address "ipv4" "10.0.0.5" []; acme_mac])
              (address "ipv4" "10.0.0.5" []) eq_refl host5_first_ipv4)
    as (ipAttrs & ip & _ & _ & _ & _ & Hdiffer).
  exists ip. exact Hdiffer.
Defined.

Lemma no_overlap_when_cycles_are_short_witness :
  Forall (fun d => (d < SCAN_INTERVAL_MS)%Z) (tail [1000; 2000; 299999]%Z) ∧
  no_overlap (main_cycles SCAN_INTERVAL_MS [1000; 2000; 299999]%Z) ∧
  (SCAN_INTERVAL_MS < 400000)%Z ∧
  ¬ no_overlap (main_cycles SCAN_INTERVAL_MS slow_second_cycle).
Proof.
  assert (Forall (fun d => (d < SCAN_INTERVAL_MS)%Z) (tail [1000; 2000; 299999]%Z)) as H.
  { repeat constructor. }
  assert (SCAN_INTERVAL_MS < 400000)%Z as Hlong by reflexivity.
  split; [exact H |]. split.
  - exact (proj1 (proj2 (no_overlap_when_cycles_are_short [1000; 2000; 299999]%Z)) H).
  - split; [exact Hlong |].
    destruct (proj2 (proj2 (no_overlap_when_cycles_are_short slow_second_cycle))
                1%nat 400000%Z 1000%Z (le_n 1) eq_refl eq_refl)
      as (a & b & _ & _ & _ & _ & Hover).
    exact (proj2 (Hover Hlong)).
Defined.

End Scenarios.

(* ================================================================== *)
(** ** More on the host set                                            *)
(* ================================================================== *)

Section HostSet.
Import JS Eff Monitor Props Examples.

(** The filter and the callback folded into one step per entry. *)
Lemma fold_filtered (l : list value) (s : StrSet) :
  fold_left add_identifier (List.filter passes_filter l) s =
  fold_left (fun s h => if passes_filter h then add_identifier s h else s) l s.
Proof.
  revert s. induction l as [| h l IH]; intros s; simpl; [done |].
  destruct (passes_filter h); simpl; apply IH.
Qed.

Lemma set_add_present (s : StrSet) (x : string) : x ∈ s → set_add s x = s.
Proof. intros Hx. unfold set_add. by rewrite (proj2 (set_has_true s x) Hx). Qed.

Lemma fold_entries_keep (l : list value) (s : StrSet) (x : string) :
  x ∈ s →
  x ∈ fold_left (fun s h => if passes_filter h then add_identifier s h else s) l s.
Proof.
  revert s. induction l as [| h l IH]; intros s Hx; simpl; [done |].
  apply IH. destruct (passes_filter h); [| done].
  unfold add_identifier. destruct (identifier_of h); [| done].
  apply set_add_elem. by left.
Qed.

(** X1. The set a scan yields never holds an identifier twice, and so
    neither does the set a cycle stores, whatever the report looks like
    and whatever was stored before. *)
Theorem stored_set_has_no_duplicates :
  (∀ result : value, NoDup (normalize result)) ∧
  (∀ (e : env) (w : world),
     ∃ currentHosts evs,
       checkForChanges e w
         = (Ok tt, {| previousHosts := currentHosts; trace := trace w ++ evs |}) ∧
       NoDup currentHosts).
Proof.
  assert (∀ result : value, NoDup (normalize result)) as Hnorm.
  { intros result. rewrite normalize_fold. apply fold_add_identifier_NoDup. constructor. }
  split; [exact Hnorm |].
  intros e w. destruct (scan_total e) as [[err Hf] | [found Hf]].
  - exists set_empty. eexists. split; [by apply checkForChanges_fails | constructor].
  - exists found. eexists. split; [by apply checkForChanges_finds |].
    destruct Hf as [xml result _ _ _ He].
    specialize (Hnorm result). unfold normalize in Hnorm. by rewrite He in Hnorm.
Qed.

(** X2. A host entry that occurs a second time in a report changes
    nothing: the set is the one of the report without the repetition. *)
Theorem repeated_entry_collapses (r r' : value) (l1 l2 l3 : list value) (h : value) :
  report_hosts r = l1 ++ h :: l2 ++ h :: l3 →
  report_hosts r' = l1 ++ h :: l2 ++ l3 →
  normalize r = normalize r'.
Proof.
  intros Hr Hr'. rewrite !normalize_fold, Hr, Hr', !fold_filtered.
  rewrite !fold_left_app. simpl. rewrite !fold_left_app. simpl.
  f_equal.
  set (step := fun (s : StrSet) (h : value) =>
                 if passes_filter h then add_identifier s h else s).
  set (s1 := fold_left step l1 set_empty).
  destruct (passes_filter h) eqn:Hpass; [| done].
  unfold add_identifier at 1. destruct (identifier_of h) as [id |] eqn:Hid; [| done].
  apply set_add_present. apply fold_entries_keep.
  unfold add_identifier. rewrite Hid. apply set_add_elem. by right.
Qed.

Lemma repeated_entry_collapses_witness :
  normalize (report [host9; host5; host9]) = normalize (report [host9; host5]).
Proof.
  apply (repeated_entry_collapses (report [host9; host5; host9]) (report [host9; host5])
           [] [host5] [] host9); reflexivity.
Defined.

Lemma first_with_app (P : value → Prop) (l extra : list value) (x : value) :
  first_with P l x → first_with P (l ++ extra) x.
Proof.
  intros (before & after & -> & Hx & Hbefore).
  exists before, (after ++ extra). split_and!; [| done | done].
  by rewrite <- app_assoc.
Qed.

(** X3. Once a host's address list holds an [ipv4] entry and a [mac]
    entry, whatever entries follow are ignored: only the first entry of
    each family is read. *)
Theorem later_addresses_are_ignored
    (s : StrSet) (h h' ipObj macObj : value) (l extra : list value) :
  get h "address" = Ok (VArr l) →
  get h' "address" = Ok (VArr (l ++ extra)) →
  first_with (has_addrtype "ipv4") l ipObj →
  first_with (has_addrtype "mac") l macObj →
  add_host s h' = add_host s h.
Proof.
  intros Hh Hh' Hip Hmac.
  pose proof Hip as (_ & _ & _ & Hty & _).
  destruct (has_addrtype_attrs _ _ Hty) as (ipProps & Hattrs & _).
  pose proof Hmac as (_ & _ & _ & Hmty & _).
  destruct (has_addrtype_attrs _ _ Hmty) as (macProps & Hmattrs & _).
  rewrite (add_host_mac s h (VArr l) ipObj (VObj ipProps) (lookup_prop "addr" ipProps)
             macObj (VObj macProps) (lookup_prop "addr" macProps)
             (lookup_prop "vendor" macProps)); try done.
  rewrite (add_host_mac s h' (VArr (l ++ extra)) ipObj (VObj ipProps)
             (lookup_prop "addr" ipProps)
             macObj (VObj macProps) (lookup_prop "addr" macProps)
             (lookup_prop "vendor" macProps)); try done.
  - by apply first_with_app.
  - by apply first_with_app.
Qed.

End HostSet.

(* ================================================================== *)
(** ** More on the differ                                              *)
(* ================================================================== *)

Section DifferMore.
Import JS Eff Monitor Props Examples.

Lemma filter_NoDup (keep : string → bool) (l : list string) :
  NoDup l → NoDup (List.filter keep l).
Proof.
  induction 1 as [| x l Hx Hl IH]; simpl; [constructor |].
  destruct (keep x); [| done]. constructor; [| done].
  intros Hin. apply Hx. apply list_elem_of_In, filter_In in Hin as [Hin _].
  by apply list_elem_of_In.
Qed.

Lemma filter_split_length (keep : string → bool) (l : list string) :
  length (List.filter keep l) + length (List.filter (fun x => negb (keep x)) l) = length l.
Proof.
  induction l as [| x l IH]; simpl; [done |]. destruct (keep x); simpl; lia.
Qed.

(** The hosts both sets hold, counted from either side. *)
Lemma common_hosts_length (previous current : StrSet) :
  NoDup previous → NoDup current →
  length (List.filter (set_has previous) current)
  = length (List.filter (set_has current) previous).
Proof.
  intros Hp Hc. apply Permutation_length, NoDup_Permutation.
  - by apply filter_NoDup.
  - by apply filter_NoDup.
  - intros x. rewrite !list_elem_of_In, !filter_In, <- !list_elem_of_In, !set_has_true.
    tauto.
Qed.

(** X4. In one cycle no host is reported both as new and as left, and,
    the sets being duplicate-free, none is reported twice. *)
Theorem arrivals_and_departures_are_disjoint (previous current : StrSet) :
  NoDup previous → NoDup current →
  let c := diff_hosts previous current in
  NoDup (newDevices c) ∧ NoDup (leftDevices c) ∧
  (∀ x, x ∈ newDevices c → x ∉ leftDevices c).
Proof.
  intros Hp Hc c. split_and!.
  - simpl. rewrite push_each_filter. by apply filter_NoDup.
  - simpl. rewrite push_each_filter. by apply filter_NoDup.
  - intros x [Hcur _]%newDevices_elem [_ Hncur]%leftDevices_elem. done.
Qed.

Lemma arrivals_and_departures_are_disjoint_witness :
  NoDup [id5; id9] ∧ NoDup [id9] ∧
  NoDup (newDevices (diff_hosts [id5; id9] [id9])) ∧
  NoDup (leftDevices (diff_hosts [id5; id9] [id9])) ∧
  (∀ x, x ∈ newDevices (diff_hosts [id5; id9] [id9])
        → x ∉ leftDevices (diff_hosts [id5; id9] [id9])).
Proof.
  assert (NoDup [id5; id9]) as H1
    by (apply (bool_decide_unpack (NoDup [id5; id9])); vm_compute; exact I).
  assert (NoDup [id9]) as H2
    by (apply (bool_decide_unpack (NoDup [id9])); vm_compute; exact I).
  split; [exact H1 |]. split; [exact H2 |].
  exact (arrivals_and_departures_are_disjoint [id5; id9] [id9] H1 H2).
Defined.

(** X5. The number of hosts moves by the arrivals minus the
    departures: current plus departures equals previous plus arrivals. *)
Theorem host_count_is_conserved (previous current : StrSet) :
  NoDup previous → NoDup current →
  let c := diff_hosts previous current in
  length current + length (leftDevices c) = length previous + length (newDevices c).
Proof.
  intros Hp Hc c. subst c. simpl. rewrite !push_each_filter.
  pose proof (filter_split_length (set_has previous) current) as H1.
  pose proof (filter_split_length (set_has current) previous) as H2.
  pose proof (common_hosts_length previous current Hp Hc) as H3.
  lia.
Qed.

Lemma host_count_is_conserved_witness :
  NoDup [id5; id9] ∧ NoDup [id9] ∧
  length [id9] + length (leftDevices (diff_hosts [id5; id9] [id9]))
  = length [id5; id9] + length (newDevices (diff_hosts [id5; id9] [id9])).
Proof.
  assert (NoDup [id5; id9]) as H1
    by (apply (bool_decide_unpack (NoDup [id5; id9])); vm_compute; exact I).
  assert (NoDup [id9]) as H2
    by (apply (bool_decide_unpack (NoDup [id9])); vm_compute; exact I).
  split; [exact H1 |]. split; [exact H2 |].
  exact (host_count_is_conserved [id5; id9] [id9] H1 H2).
Defined.

Lemma hasChanges_false_iff (previous current : StrSet) :
  hasChanges (diff_hosts previous current) = false ↔ (∀ x, x ∈ current ↔ x ∈ previous).
Proof.
  unfold hasChanges. rewrite orb_false_iff, !Nat.ltb_ge. split.
  - intros [Hnew Hleft] x.
    assert (newDevices (diff_hosts previous current) = []) as En
      by (destruct (newDevices _); [done | simpl in Hnew; lia]).
    assert (leftDevices (diff_hosts previous current) = []) as El
      by (destruct (leftDevices _); [done | simpl in Hleft; lia]).
    pose proof (newDevices_elem previous current x) as Hn.
    pose proof (leftDevices_elem previous current x) as Hl.
    rewrite En in Hn. rewrite El in Hl.
    split; intros Hx.
    + destruct (decide (x ∈ previous)) as [? | Hnot]; [done |].
      exfalso. eapply elem_of_nil, Hn. done.
    + destruct (decide (x ∈ current)) as [? | Hnot]; [done |].
      exfalso. eapply elem_of_nil, Hl. done.
  - intros Hsame. simpl.
    rewrite push_each_none, push_each_none; [done | |].
    + intros x Hx. apply negb_false_iff, set_has_true. by apply Hsame.
    + intros x Hx. apply negb_false_iff, set_has_true. by apply Hsame.
Qed.

(** X6. The change flag of line 107 is off exactly when the scan holds
    the same hosts as the stored set, in whatever order. *)
Theorem no_changes_iff_same_hosts (previous current : StrSet) :
  hasChanges (diff_hosts previous current) = false ↔ (∀ x, x ∈ current ↔ x ∈ previous).
Proof.
  split.
  - intros Hflag x. by apply (proj1 (hasChanges_false_iff previous current)).
  - apply hasChanges_false_iff.
Qed.

(** X7. A cycle whose scan holds the same hosts as the stored set, in
    whatever order, prints the single line [No changes. N hosts active.]
    with the number of hosts, starts no notifier, and stores the scan's
    set. *)
Theorem steady_cycle_reports_no_changes (e : env) (found : StrSet) (w : world) :
  scan_finds e found →
  (∀ x, x ∈ found ↔ x ∈ previousHosts w) →
  checkForChanges e w =
  (Ok tt, {| previousHosts := found;
             trace := trace w ++
               [ConsoleLog ("Scanning " +:+ SCAN_TARGET +:+ "...");
                Exec nmap_command;
                ConsoleLog ("No changes. " +:+ show_nat (length found)
                              +:+ " hosts active.")] |}).
Proof.
  intros Hf Hsame. rewrite (checkForChanges_finds e found w Hf).
  apply hasChanges_false_iff in Hsame.
  unfold log_lines, notify_events. rewrite Hsame. reflexivity.
Qed.

Lemma steady_cycle_reports_no_changes_witness :
  scan_finds (env_finding (report [host5])) [id5] ∧
  (∀ x, x ∈ [id5] ↔ x ∈ previousHosts world5) ∧
  checkForChanges (env_finding (report [host5])) world5 =
  (Ok tt, {| previousHosts := [id5];
             trace := trace world5 ++
               [ConsoleLog ("Scanning " +:+ SCAN_TARGET +:+ "...");
                Exec nmap_command;
                ConsoleLog ("No changes. " +:+ show_nat (length [id5])
                              +:+ " hosts active.")] |}).
Proof.
  assert (scan_finds (env_finding (report [host5])) [id5]) as H1
    by (apply (scan_ok _ _ "<nmaprun/>" (report [host5])); reflexivity).
  assert (∀ x, x ∈ [id5] ↔ x ∈ previousHosts world5) as H2 by (intros x; reflexivity).
  split; [exact H1 |]. split; [exact H2 |].
  exact (steady_cycle_reports_no_changes _ _ _ H1 H2).
Defined.

(** X8. A change is reported once. A host reported as left in one
    cycle is not reported as left in the next one, and a host reported
    as new is not reported as new again, whatever the next scan finds:
    the second cycle compares against the set the first one stored. *)
Theorem changes_are_reported_once
    (e1 e2 : env) (found1 found2 : StrSet) (w : world) :
  scan_finds e1 found1 → scan_finds e2 found2 →
  ∃ evs1,
    checkForChanges e1 w
      = (Ok tt, {| previousHosts := found1; trace := trace w ++ evs1 |}) ∧
    checkForChanges e2 {| previousHosts := found1; trace := trace w ++ evs1 |}
      = (Ok tt, {| previousHosts := found2;
                   trace := (trace w ++ evs1) ++ scan_started
                              ++ log_lines (diff_hosts found1 found2) found2
                              ++ notify_events e2 (diff_hosts found1 found2) |}) ∧
    (∀ x, x ∈ leftDevices (diff_hosts (previousHosts w) found1) →
          x ∉ leftDevices (diff_hosts found1 found2)) ∧
    (∀ x, x ∈ newDevices (diff_hosts (previousHosts w) found1) →
          x ∉ newDevices (diff_hosts found1 found2)).
Proof.
  intros H1 H2. eexists. split_and!.
  - by apply checkForChanges_finds.
  - by rewrite (checkForChanges_finds e2 found2 _ H2).
  - intros x [_ Hn]%leftDevices_elem [Hin _]%leftDevices_elem. done.
  - intros x [Hin _]%newDevices_elem [_ Hn]%newDevices_elem. done.
Qed.

End DifferMore.

(* ================================================================== *)
(** ** More on one cycle and on runs of cycles                         *)
(* ================================================================== *)

Section CycleMore.
Import JS Eff Monitor Props Examples.

Lemma notify_command_is_notification (title body : string) :
  is_notification (Exec (notify_command title body)) = true.
Proof. reflexivity. Qed.

Lemma notifications_left_events (e : env) (c : changes) :
  notifications (left_events e c) `sublist_of` [Exec (devices_left_command c)].
Proof.
  unfold left_events. destruct (leftDevices c); [apply sublist_nil_l |].
  unfold notifications. simpl.
  change (is_notification (Exec (devices_left_command c))) with true. simpl.
  by destruct (notify_send e (devices_left_command c)).
Qed.

Lemma notifications_notify_events (e : env) (c : changes) :
  notifications (notify_events e c)
    `sublist_of` [Exec (new_devices_command c); Exec (devices_left_command c)].
Proof.
  unfold notify_events. destruct (hasChanges c && negb (isFirstScan c));
    [| apply sublist_nil_l].
  destruct (newDevices c).
  - apply sublist_cons. apply notifications_left_events.
  - unfold notifications. simpl.
    change (is_notification (Exec (new_devices_command c))) with true. simpl.
    apply sublist_skip.
    destruct (notify_send e (new_devices_command c)); [apply sublist_nil_l |].
    apply notifications_left_events.
Qed.

(** X9. A cycle starts at most two notifier processes, whatever the
    number of hosts that changed: at most one [New Devices] command and
    at most one [Devices Left] command, in that order. *)
Theorem at_most_one_notification_of_each_kind (e : env) (w : world) :
  ∃ currentHosts evs,
    checkForChanges e w
      = (Ok tt, {| previousHosts := currentHosts; trace := trace w ++ evs |}) ∧
    let c := diff_hosts (previousHosts w) currentHosts in
    notifications evs
      `sublist_of` [Exec (new_devices_command c); Exec (devices_left_command c)].
Proof.
  destruct (checkForChanges_run e w) as (cur & scan_evs & _ & Hquiet & Hrun).
  exists cur. eexists. split; [exact Hrun |]. cbv zeta.
  rewrite !notifications_app, Hquiet.
  rewrite (notifications_console _ (log_lines_console _ _)). simpl.
  apply notifications_notify_events.
Qed.

(** X10. When something changed, the cycle prints one [NEW DEVICE] line
    per arrival, in the order of the scan, and then one [DEVICE LEFT]
    line per departure, in the order of the stored set; these are all
    the lines it prints after the scan. *)
Theorem one_log_line_per_change (e : env) (w : world) :
  ∃ currentHosts scan_evs note_evs,
    getActiveHosts e w =
      (Ok currentHosts, {| previousHosts := previousHosts w; trace := trace w ++ scan_evs |}) ∧
    let c := diff_hosts (previousHosts w) currentHosts in
    (hasChanges c = true →
     checkForChanges e w =
       (Ok tt,
        {| previousHosts := currentHosts;
           trace := trace w ++ scan_evs
             ++ map (fun host => ConsoleLog ("[+] NEW DEVICE: " +:+ host)) (newDevices c)
             ++ map (fun host => ConsoleLog ("[-] DEVICE LEFT: " +:+ host)) (leftDevices c)
             ++ note_evs |}) ∧
     Forall (fun ev => ¬ is_console_log ev) note_evs).
Proof.
  destruct (checkForChanges_run e w) as (cur & scan_evs & Hscan & _ & Hrun).
  exists cur, scan_evs, (notify_events e (diff_hosts (previousHosts w) cur)).
  split; [exact Hscan |]. cbv zeta. intros Hchanged. split.
  - rewrite Hrun. unfold log_lines. rewrite Hchanged. by rewrite <- !app_assoc.
  - generalize (diff_hosts (previousHosts w) cur). intros c.
    unfold notify_events, left_events.
    destruct (hasChanges c && negb (isFirstScan c)); [| constructor].
    destruct (newDevices c), (leftDevices c);
      repeat match goal with
             | |- context [notify_send ?e ?cmd] => destruct (notify_send e cmd)
             end;
      repeat constructor; simpl; tauto.
Qed.

(** X11. A scan that fails while nothing is stored is reported as no
    change: the cycle prints the error and then
    [No changes. 0 hosts active.], starts no notifier, and stores the
    empty set again. *)
Theorem failed_scan_on_empty_state (e : env) (err : error) (tr : list event) :
  scan_fails e err →
  checkForChanges e {| previousHosts := set_empty; trace := tr |} =
  (Ok tt, {| previousHosts := set_empty;
             trace := tr ++
               [ConsoleLog ("Scanning " +:+ SCAN_TARGET +:+ "...");
                Exec nmap_command;
                ConsoleError ("[Error] Scan failed: " +:+ stack err);
                ConsoleLog "No changes. 0 hosts active."] |}).
Proof.
  intros Hf. rewrite (checkForChanges_fails e err _ Hf). reflexivity.
Qed.

Lemma notify_events_ext (e1 e2 : env) (c : changes) :
  (∀ command, notify_send e1 command = notify_send e2 command) →
  notify_events e1 c = notify_events e2 c.
Proof.
  intros Hsame. unfold notify_events, left_events. by rewrite !Hsame.
Qed.

(** X12. A failed scan and a scan that finds no host are told apart
    by the error line only. Against the same stored set and the same
    notifier, both cycles print the same lines, start the same
    notifiers and store the empty set. *)
Theorem failed_scan_looks_like_empty_network
    (e_fail e_empty : env) (err : error) (w : world) :
  scan_fails e_fail err → scan_finds e_empty [] →
  (∀ command, notify_send e_fail command = notify_send e_empty command) →
  ∃ rest,
    checkForChanges e_fail w =
      (Ok tt, {| previousHosts := set_empty;
                 trace := trace w ++ scan_started
                   ++ [ConsoleError ("[Error] Scan failed: " +:+ stack err)] ++ rest |}) ∧
    checkForChanges e_empty w =
      (Ok tt, {| previousHosts := set_empty; trace := trace w ++ scan_started ++ rest |}).
Proof.
  intros Hfail Hempty Hsame.
  exists (log_lines (diff_hosts (previousHosts w) set_empty) set_empty
            ++ notify_events e_fail (diff_hosts (previousHosts w) set_empty)).
  split.
  - rewrite (checkForChanges_fails e_fail err w Hfail). unfold scan_failed.
    by rewrite <- !app_assoc.
  - rewrite (checkForChanges_finds e_empty [] w Hempty).
    by rewrite (notify_events_ext e_fail e_empty _ Hsame).
Qed.

Lemma run_cycles_app (es1 es2 : list env) (w : world) :
  run_cycles (es1 ++ es2) w =
  match run_cycles es1 w with
  | (Ok _, w') => run_cycles es2 w'
  | (Throw err, w') => (Throw err, w')
  end.
Proof.
  revert w. induction es1 as [| e es1 IH]; intros w; simpl; [done |].
  rewrite !bind_run. destruct (checkForChanges e w) as [[[] | err] w']; [apply IH | done].
Qed.

(** X13. The stored set is replaced, never merged: after any run of
    cycles it is the set of the last scan, or the empty set if that scan
    failed, whatever was stored or scanned before. *)
Theorem stored_set_is_last_scan (es : list env) (e : env) (w : world) :
  ∃ stored evs,
    run_cycles (es ++ [e]) w
      = (Ok tt, {| previousHosts := stored; trace := trace w ++ evs |}) ∧
    (∀ found, scan_finds e found → stored = found) ∧
    (∀ err, scan_fails e err → stored = set_empty).
Proof.
  rewrite run_cycles_app.
  destruct (run_cycles_total es w) as (stored0 & evs0 & ->). simpl.
  rewrite bind_run.
  destruct (checkForChanges_run e {| previousHosts := stored0; trace := trace w ++ evs0 |})
    as (cur & scan_evs & Hscan & _ & Hrun).
  rewrite Hrun. unfold mret, eff_ret. exists cur. eexists. split_and!.
  - cbn [trace]. by rewrite <- app_assoc.
  - intros found Hf. rewrite (getActiveHosts_finds _ _ _ Hf) in Hscan. congruence.
  - intros err Hf. rewrite (getActiveHosts_fails _ _ _ Hf) in Hscan. congruence.
Qed.

(** X14. [main] returns normally whatever the first scan does. It
    prints its start line, runs one cycle, arms the timer with the
    polling interval and prints [Scan complete], also when the scan
    failed; started on the empty stored set, it starts no notifier. *)
Theorem main_completes_first_cycle (e : env) (w : world) :
  ∃ currentHosts evs,
    checkForChanges e
        {| previousHosts := previousHosts w;
           trace := trace w
             ++ [ConsoleLog "Starting network monitor. Running initial scan..."] |}
      = (Ok tt,
         {| previousHosts := currentHosts;
            trace := (trace w
              ++ [ConsoleLog "Starting network monitor. Running initial scan..."]) ++ evs |}) ∧
    main e w =
      (Ok SCAN_INTERVAL_MS,
       {| previousHosts := currentHosts;
          trace := trace w
            ++ [ConsoleLog "Starting network monitor. Running initial scan..."]
            ++ evs
            ++ [ConsoleLog "Scan complete. Next scan in 5 minutes."] |}) ∧
    (previousHosts w = [] → notifications evs = []).
Proof.
  set (w1 := {| previousHosts := previousHosts w;
                trace := trace w
                  ++ [ConsoleLog "Starting network monitor. Running initial scan..."] |}).
  destruct (checkForChanges_run e w1) as (cur & scan_evs & _ & Hquiet & Hrun).
  exists cur. eexists. split_and!.
  - exact Hrun.
  - unfold main. rewrite bind_run. unfold console_log at 1, emit. fold w1.
    rewrite bind_run, Hrun. cbv zeta. rewrite bind_run.
    unfold console_log, emit, mret, eff_ret. cbn [previousHosts trace w1].
    by rewrite <- !app_assoc.
  - intros Hempty. cbn [previousHosts w1]. rewrite Hempty, diff_from_empty.
    rewrite !notifications_app, Hquiet, notify_events_first_scan by done.
    rewrite (notifications_console _ (log_lines_console _ _)). done.
Qed.

End CycleMore.

(* ================================================================== *)
(** ** More on identifiers                                             *)
(* ================================================================== *)

Section IdentifiersMore.
Import JS Monitor Props Examples.

Lemma append_length (a b : string) :
  String.length (a +:+ b) = String.length a + String.length b.
Proof. induction a as [| c a IH]; simpl; [done | by rewrite IH]. Qed.

Lemma append_inv_tail (a b s : string) : a +:+ s = b +:+ s → a = b.
Proof.
  revert b. induction a as [| c a IH]; intros [| d b] H; simpl in H.
  - done.
  - apply (f_equal String.length) in H. simpl in H.
    rewrite ?append_length in H. simpl in H. lia.
  - apply (f_equal String.length) in H. simpl in H.
    rewrite ?append_length in H. simpl in H. lia.
  - injection H as -> H. f_equal. by apply IH.
Qed.

Lemma identifier_no_mac_inj (ip ip' : string) :
  identifier_no_mac ip = identifier_no_mac ip' → ip = ip'.
Proof. unfold identifier_no_mac. apply append_inv_tail. Qed.

(** X15. Two host entries without hardware address whose first [ipv4]
    entry carries its address as a string contribute the same identifier
    only if the two address strings are equal. *)
Theorem no_mac_identifier_determines_address
    (h h' v v' ipObj ipObj' ipAttrs ipAttrs' : value) (ip ip' id : string) :
  get h "address" = Ok v →
  first_with (has_addrtype "ipv4") (as_array v) ipObj →
  get ipObj "$" = Ok ipAttrs → get ipAttrs "addr" = Ok (VStr ip) →
  none_with (has_addrtype "mac") (as_array v) →
  get h' "address" = Ok v' →
  first_with (has_addrtype "ipv4") (as_array v') ipObj' →
  get ipObj' "$" = Ok ipAttrs' → get ipAttrs' "addr" = Ok (VStr ip') →
  none_with (has_addrtype "mac") (as_array v') →
  contributes h id → contributes h' id →
  ip = ip'.
Proof.
  intros Hv Hip Hattrs Haddr Hnone Hv' Hip' Hattrs' Haddr' Hnone' [_ Hadd] [_ Hadd'].
  rewrite (add_host_no_mac set_empty _ _ _ _ _ Hv Hip Hattrs Haddr Hnone) in Hadd.
  rewrite (add_host_no_mac set_empty _ _ _ _ _ Hv' Hip' Hattrs' Haddr' Hnone') in Hadd'.
  rewrite !set_add_empty in *. simpl in Hadd, Hadd'.
  apply identifier_no_mac_inj. congruence.
Qed.

Lemma host9_first_ipv4 :
  first_with (has_addrtype "ipv4")
    (as_array (VArr [address "ipv4" "10.0.0.9" []])) (address "ipv4" "10.0.0.9" []).
Proof.
  exists [], []. split_and!; [reflexivity | | constructor].
  eexists. split; reflexivity.
Qed.

Lemma ipv4_entry_is_not_mac (addr : string) :
  ¬ has_addrtype "mac" (address "ipv4" addr []).
Proof.
  intros (attrs & Hattrs & Hty).
  vm_compute in Hattrs. injection Hattrs as <-.
  vm_compute in Hty. discriminate.
Qed.

Lemma host9_no_mac :
  none_with (has_addrtype "mac") (as_array (VArr [address "ipv4" "10.0.0.9" []])).
Proof. constructor; [apply ipv4_entry_is_not_mac | constructor]. Qed.

Lemma host9_contributes : contributes host9 id9.
Proof. split; reflexivity. Qed.

Lemma no_mac_identifier_determines_address_witness :
  contributes host9 id9 ∧ "10.0.0.9" = "10.0.0.9".
Proof.
  split; [exact host9_contributes |].
  exact (no_mac_identifier_determines_address host9 host9
           (VArr [address "ipv4" "10.0.0.9" []]) (VArr [address "ipv4" "10.0.0.9" []])
           (address "ipv4" "10.0.0.9" []) (address "ipv4" "10.0.0.9" [])
           (VObj [("addr", VStr "10.0.0.9"); ("addrtype", VStr "ipv4")])
           (VObj [("addr", VStr "10.0.0.9"); ("addrtype", VStr "ipv4")])
           "10.0.0.9" "10.0.0.9" id9
           eq_refl host9_first_ipv4 eq_refl eq_refl host9_no_mac
           eq_refl host9_first_ipv4 eq_refl eq_refl host9_no_mac
           host9_contributes host9_contributes).
Defined.

(** X16. A host that loses its hardware address between two scans is
    reported twice: its old identifier as a device that left and its new
    one as a new device, although the address is the same. *)
Theorem lost_mac_is_departure_and_arrival (ip mac vendor : string) :
  diff_hosts [identifier_with_mac ip mac vendor] [identifier_no_mac ip] =
  {| isFirstScan := false;
     newDevices := [identifier_no_mac ip];
     leftDevices := [identifier_with_mac ip mac vendor] |}.
Proof.
  pose proof (identifier_shapes_differ ip mac vendor) as Hdiff.
  unfold diff_hosts, push_each, set_has. simpl.
  rewrite !orb_false_r.
  assert ((identifier_no_mac ip =? identifier_with_mac ip mac vendor)%string = false) as E1.
  { apply String.eqb_neq. congruence. }
  assert ((identifier_with_mac ip mac vendor =? identifier_no_mac ip)%string = false) as E2.
  { by apply String.eqb_neq. }
  by rewrite E1, E2.
Qed.

Lemma host5_first_mac :
  first_with (has_addrtype "mac") [address "ipv4" "10.0.0.5" []; acme_mac] acme_mac.
Proof.
  exists [address "ipv4" "10.0.0.5" []], []. split_and!; [reflexivity | |].
  - eexists. split; reflexivity.
  - constructor; [apply ipv4_entry_is_not_mac | constructor].
Qed.

Lemma later_addresses_are_ignored_witness :
  add_host [id9]
    (host_entry "up" [address "ipv4" "10.0.0.5" []; acme_mac;
                      address "ipv4" "10.0.0.77" []; address "mac" "00:00:00:00:00:01" []])
  = add_host [id9] host5.
Proof.
  apply (later_addresses_are_ignored [id9] host5 _
           (address "ipv4" "10.0.0.5" []) acme_mac
           [address "ipv4" "10.0.0.5" []; acme_mac]
           [address "ipv4" "10.0.0.77" []; address "mac" "00:00:00:00:00:01" []]).
  - reflexivity.
  - reflexivity.
  - exact host5_first_ipv4.
  - exact host5_first_mac.
Defined.

End IdentifiersMore.

(* ================================================================== *)
(** ** Instances of the properties above                               *)
(* ================================================================== *)

Section Instances.
Import JS Eff Monitor Props Examples.

Lemma finds_host5 : scan_finds (env_finding (report [host5])) [id5].
Proof. apply (scan_ok _ _ "<nmaprun/>" (report [host5])); reflexivity. Qed.

Lemma finds_host9 : scan_finds (env_finding (report [host9])) [id9].
Proof. apply (scan_ok _ _ "<nmaprun/>" (report [host9])); reflexivity. Qed.

Lemma finds_nothing : scan_finds (env_finding (report [])) [].
Proof. apply (scan_ok _ _ "<nmaprun/>" (report [])); reflexivity. Qed.

Lemma scan_failing_fails : scan_fails env_scan_failing exit_1.
Proof. apply fail_process. reflexivity. Qed.

Lemma changes_are_reported_once_witness :
  scan_finds (env_finding (report [host9])) [id9] ∧
  scan_finds (env_finding (report [])) [] ∧
  ∃ evs1,
    checkForChanges (env_finding (report [host9])) world5
      = (Ok tt, {| previousHosts := [id9]; trace := trace world5 ++ evs1 |}) ∧
    (∀ x, x ∈ leftDevices (diff_hosts (previousHosts world5) [id9]) →
          x ∉ leftDevices (diff_hosts [id9] [])).
Proof.
  split; [exact finds_host9 |]. split; [exact finds_nothing |].
  destruct (changes_are_reported_once (env_finding (report [host9]))
              (env_finding (report [])) [id9] [] world5 finds_host9 finds_nothing)
    as (evs1 & H1 & _ & Hleft & _).
  exists evs1. split; [exact H1 | exact Hleft].
Defined.

Lemma one_log_line_per_change_witness :
  ∃ note_evs,
    checkForChanges (env_finding (report [host5_down; host9])) world5 =
      (Ok tt,
       {| previousHosts := [id9];
          trace := [] ++ scan_started
            ++ map (fun host => ConsoleLog ("[+] NEW DEVICE: " +:+ host))
                 (newDevices (diff_hosts [id5] [id9]))
            ++ map (fun host => ConsoleLog ("[-] DEVICE LEFT: " +:+ host))
                 (leftDevices (diff_hosts [id5] [id9]))
            ++ note_evs |}) ∧
    Forall (fun ev => ¬ is_console_log ev) note_evs.
Proof.
  destruct (one_log_line_per_change (env_finding (report [host5_down; host9])) world5)
    as (cur & scan_evs & note_evs & Hscan & Hchanged).
  vm_compute in Hscan. injection Hscan as <- <-.
  exists note_evs. apply Hchanged. reflexivity.
Defined.

Lemma failed_scan_on_empty_state_witness :
  scan_fails env_scan_failing exit_1 ∧
  checkForChanges env_scan_failing {| previousHosts := set_empty; trace := [] |} =
  (Ok tt, {| previousHosts := set_empty;
             trace := [] ++
               [ConsoleLog ("Scanning " +:+ SCAN_TARGET +:+ "...");
                Exec nmap_command;
                ConsoleError ("[Error] Scan failed: " +:+ stack exit_1);
                ConsoleLog "No changes. 0 hosts active."] |}).
Proof.
  split; [exact scan_failing_fails |].
  exact (failed_scan_on_empty_state env_scan_failing exit_1 [] scan_failing_fails).
Defined.

Lemma failed_scan_looks_like_empty_network_witness :
  scan_fails env_scan_failing exit_1 ∧
  scan_finds (env_finding (report [])) [] ∧
  (∀ command, notify_send env_scan_failing command
              = notify_send (env_finding (report [])) command) ∧
  ∃ rest,
    checkForChanges env_scan_failing world5 =
      (Ok tt, {| previousHosts := set_empty;
                 trace := trace world5 ++ scan_started
                   ++ [ConsoleError ("[Error] Scan failed: " +:+ stack exit_1)] ++ rest |}) ∧
    checkForChanges (env_finding (report [])) world5 =
      (Ok tt, {| previousHosts := set_empty; trace := trace world5 ++ scan_started ++ rest |}).
Proof.
  assert (∀ command, notify_send env_scan_failing command
                     = notify_send (env_finding (report [])) command) as Hsame
    by (intros command; reflexivity).
  split; [exact scan_failing_fails |]. split; [exact finds_nothing |].
  split; [exact Hsame |].
  exact (failed_scan_looks_like_empty_network env_scan_failing (env_finding (report []))
           exit_1 world5 scan_failing_fails finds_nothing Hsame).
Defined.

Lemma stored_set_is_last_scan_witness :
  scan_finds (env_finding (report [host5])) [id5] ∧
  ∃ stored evs,
    run_cycles ([env_finding (report [host9]); env_scan_failing]
                  ++ [env_finding (report [host5])]) world5
      = (Ok tt, {| previousHosts := stored; trace := trace world5 ++ evs |}) ∧
    stored = [id5].
Proof.
  split; [exact finds_host5 |].
  destruct (stored_set_is_last_scan [env_finding (report [host9]); env_scan_failing]
              (env_finding (report [host5])) world5)
    as (stored & evs & Hrun & Hfound & _).
  exists stored, evs. split; [exact Hrun | exact (Hfound [id5] finds_host5)].
Defined.

Lemma main_completes_first_cycle_witness :
  previousHosts initial_world = [] ∧
  ∃ currentHosts evs,
    main (env_finding (report [host5; host9])) initial_world =
      (Ok SCAN_INTERVAL_MS,
       {| previousHosts := currentHosts;
          trace := trace initial_world
            ++ [ConsoleLog "Starting network monitor. Running initial scan..."]
            ++ evs
            ++ [ConsoleLog "Scan complete. Next scan in 5 minutes."] |}) ∧
    notifications evs = [].
Proof.
  split; [reflexivity |].
  destruct (main_completes_first_cycle (env_finding (report [host5; host9])) initial_world)
    as (cur & evs & _ & Hmain & Hquiet).
  exists cur, evs. split; [exact Hmain | exact (Hquiet eq_refl)].
Defined.

End Instances.

(* ================================================================== *)
(** ** The order of the host set                                       *)
(* ================================================================== *)

Section HostOrder.
Import JS Eff Monitor Props Examples.

Lemma fold_add_identifier_distinct (l : list value) (s : StrSet) :
  NoDup (s ++ omap identifier_of l) →
  fold_left add_identifier l s = s ++ omap identifier_of l.
Proof.
  revert s. induction l as [| h l IH]; intros s Hnd; simpl.
  - by rewrite app_nil_r.
  - simpl in Hnd. unfold add_identifier at 2.
    destruct (identifier_of h) as [id |] eqn:Hid; simpl in *.
    + assert (id ∉ s) as Hfresh.
      { apply NoDup_app in Hnd as (_ & Hdisj & _). intros Hin.
        apply (Hdisj id Hin). apply list_elem_of_here. }
      unfold set_add. rewrite (proj2 (set_has_false s id) Hfresh).
      rewrite IH; rewrite <- app_assoc; done.
    + by apply IH.
Qed.

(** X19. When the hosts of a report have pairwise different
    identifiers, the set lists them in the order of the report; this is
    the order in which a cycle logs them and lists them in a
    notification. *)
Theorem host_set_keeps_report_order (result : value) :
  NoDup (omap identifier_of (List.filter passes_filter (report_hosts result))) →
  normalize result = omap identifier_of (List.filter passes_filter (report_hosts result)).
Proof.
  intros Hnd. rewrite normalize_fold. by apply fold_add_identifier_distinct.
Qed.

Lemma host_set_keeps_report_order_witness :
  NoDup (omap identifier_of
           (List.filter passes_filter (report_hosts (report [host9; host5_down; host5])))) ∧
  normalize (report [host9; host5_down; host5]) = [id9; id5].
Proof.
  assert (NoDup (omap identifier_of
            (List.filter passes_filter
               (report_hosts (report [host9; host5_down; host5]))))) as H
    by (apply (bool_decide_unpack (NoDup _)); vm_compute; exact I).
  split; [exact H |].
  exact (host_set_keeps_report_order (report [host9; host5_down; host5]) H).
Defined.

End HostOrder.
